(** * A trace-driven MESI cache simulator with a false-sharing detector

    Shallow embedding of [sim.py] (and of the argument checks of
    [plot_results.py]) and verification of its specification.

    Python integers are unbounded, hence [Z].  The [stats] dictionary is a
    [defaultdict(int)], modelled as a [gmap string Z] read with default 0.
    A [CacheLine] object returned by [probe] is a reference into the line
    matrix; the embedding returns its position (set, way) together with the
    line, and [access] writes the mutated line back at that position.
    Exceptions raised by the interpreter (division by zero, index out of
    range, [int()] on a bad literal) are results in the [res] monad. *)

From stdpp Require Import gmap strings list pretty.
From Stdlib Require Import ZArith Lia Ascii.

Open Scope Z_scope.
Set Warnings "-clear-no-such-hyp".  (* set_solver clears what it has used *)

(** ** Exceptions *)

Inductive exn := ZeroDivisionError | IndexError | ValueError.

Inductive res (A : Type) : Type :=
| Ok (a : A)
| Raise (e : exn).
Arguments Ok {A} a.
Arguments Raise {A} e.

Global Instance res_ret : MRet res := λ A a, Ok a.
Global Instance res_bind : MBind res := λ A B f m,
  match m with Ok a => f a | Raise e => Raise e end.

(** Python's [//] and [%] are floor division and its remainder, like
    [Z.div] and [Z.modulo], except that a zero divisor raises. *)
Definition py_floordiv (a b : Z) : res Z :=
  if decide (b = 0) then Raise ZeroDivisionError else Ok (a `div` b).

Definition py_mod (a b : Z) : res Z :=
  if decide (b = 0) then Raise ZeroDivisionError else Ok (a `mod` b).

(** [l[i]]: a negative index counts from the end of the list. *)
Definition py_pos (len : nat) (i : Z) : res nat :=
  if decide (0 ≤ i) then
    if decide (i < Z.of_nat len) then Ok (Z.to_nat i) else Raise IndexError
  else
    if decide (- Z.of_nat len ≤ i) then Ok (Z.to_nat (Z.of_nat len + i))
    else Raise IndexError.

Definition py_getitem {A} (l : list A) (i : Z) : res (nat * A) :=
  n ← py_pos (length l) i;
  match l !! n with
  | Some a => Ok (n, a)
  | None => Raise IndexError
  end.

(** ** Data model *)

Inductive mesi := INVALID | SHARED | EXCLUSIVE | MODIFIED.

Global Instance mesi_eq_dec : EqDecision mesi.
Proof. solve_decision. Defined.

(** [owner] is [None] or a core id; [sharers] is a Python set that receives
    core ids and, in [{core, line.owner}], the owner field itself; its
    elements therefore have the type of [owner]. *)
Record CacheLine := mkLine {
  tag : Z;
  state : mesi;
  owner : option Z;
  sharers : gset (option Z);
  last_writer_core : Z;
  last_word : Z;
  fs_conf : Z;
  fs_suspect : bool
}.

Definition CacheLine_new : CacheLine :=
  mkLine (-1) INVALID None ∅ (-1) 0 0 false.

Record Config := mkConfig {
  line_bytes : Z;
  sets : Z;
  assoc : Z;
  word_bytes : Z;
  fs_threshold : Z;
  false_sharing_fix : bool;
  hit_latency : Z;
  miss_latency : Z;
  inv_latency : Z
}.

Definition Config_default : Config :=
  mkConfig 64 64 8 4 2 false 4 40 10.

Record Cache := mkCache {
  cfg : Config;
  lines : list (list CacheLine);
  repl_idx : list Z
}.

(** [Cache.__init__]: [range(n)] is empty for [n <= 0]. *)
Definition Cache_new (cf : Config) : Cache :=
  mkCache cf
    (replicate (Z.to_nat (sets cf)) (replicate (Z.to_nat (assoc cf)) CacheLine_new))
    (replicate (Z.to_nat (sets cf)) 0).

(** Field assignments on a line. *)
Definition set_state (s : mesi) (l : CacheLine) : CacheLine :=
  mkLine (tag l) s (owner l) (sharers l) (last_writer_core l) (last_word l)
         (fs_conf l) (fs_suspect l).
Definition set_owner (o : option Z) (l : CacheLine) : CacheLine :=
  mkLine (tag l) (state l) o (sharers l) (last_writer_core l) (last_word l)
         (fs_conf l) (fs_suspect l).
Definition set_sharers (sh : gset (option Z)) (l : CacheLine) : CacheLine :=
  mkLine (tag l) (state l) (owner l) sh (last_writer_core l) (last_word l)
         (fs_conf l) (fs_suspect l).
Definition set_tag (t : Z) (l : CacheLine) : CacheLine :=
  mkLine t (state l) (owner l) (sharers l) (last_writer_core l) (last_word l)
         (fs_conf l) (fs_suspect l).
Definition set_fs_conf (n : Z) (l : CacheLine) : CacheLine :=
  mkLine (tag l) (state l) (owner l) (sharers l) (last_writer_core l)
         (last_word l) n (fs_suspect l).
Definition set_fs_suspect (b : bool) (l : CacheLine) : CacheLine :=
  mkLine (tag l) (state l) (owner l) (sharers l) (last_writer_core l)
         (last_word l) (fs_conf l) b.
Definition set_last (w wd : Z) (l : CacheLine) : CacheLine :=
  mkLine (tag l) (state l) (owner l) (sharers l) w wd (fs_conf l) (fs_suspect l).

(** ** Statistics: a [defaultdict(int)] *)

Definition stat (st : gmap string Z) (k : string) : Z := default 0 (st !! k).

(** [stats[k] += n] *)
Definition incr (k : string) (n : Z) (st : gmap string Z) : gmap string Z :=
  <[k := stat st k + n]> st.

(** ** Logger *)

Inductive csv_field := CStr (s : string) | CInt (n : Z).

(** [rows] is [None] when no destination is configured ([self.writer] is
    [None]); otherwise it holds the rows written so far. *)
Record Logger := mkLogger {
  path : option string;
  rows : option (list (list csv_field));
  event_id : Z
}.

Definition csv_header : list csv_field :=
  [CStr "event_id"; CStr "addr"; CStr "core"; CStr "word_idx";
   CStr "prev_core"; CStr "prev_word"; CStr "fs_conf"; CStr "fs_suspect"].

(** [open(path, "w") if path else None]: [None] and the empty string are
    both falsy. *)
Definition Logger_new (p : option string) : Logger :=
  match p with
  | Some s => if decide (s = ""%string) then mkLogger p None 0
              else mkLogger p (Some [csv_header]) 0
  | None => mkLogger p None 0
  end.

Definition log_suspect (lg : Logger) (core : Z) (line : CacheLine) (word_idx : Z)
  : Logger :=
  match rows lg with
  | None => lg
  | Some rs =>
      let eid := event_id lg + 1 in
      mkLogger (path lg)
        (Some (rs ++ [[CInt eid; CInt (tag line); CInt core; CInt word_idx;
                       CInt (last_writer_core line); CInt (last_word line);
                       CInt (fs_conf line);
                       CInt (if fs_suspect line then 1 else 0)]]))
        eid
  end.

(** ** Cache: probing and replacement *)

Definition _index_tag (cf : Config) (addr : Z) : res (Z * Z) :=
  line_addr ← py_floordiv addr (line_bytes cf);
  idx ← py_mod line_addr (sets cf);
  Ok (idx, line_addr).

Definition _word_idx (cf : Config) (addr : Z) : res Z :=
  w ← py_floordiv addr (word_bytes cf);
  n ← py_floordiv (line_bytes cf) (word_bytes cf);
  py_mod w n.

Definition line_matches (t : Z) (l : CacheLine) : Prop :=
  tag l = t ∧ state l ≠ INVALID.

Global Instance line_matches_dec t l : Decision (line_matches t l).
Proof. unfold line_matches. apply _. Defined.

(** The victim's coherence fields are reset; the detector fields stay. *)
Definition evict (t : Z) (l : CacheLine) : CacheLine :=
  mkLine t INVALID None ∅ (last_writer_core l) (last_word l)
         (fs_conf l) (fs_suspect l).

(** A line reference: position of the set and of the way. *)
Definition lineref : Type := nat * nat.

Definition store (c : Cache) (r : lineref) (l : CacheLine) : Cache :=
  match lines c !! r.1 with
  | Some ways => mkCache (cfg c) (<[r.1 := <[r.2 := l]> ways]> (lines c)) (repl_idx c)
  | None => c
  end.

Definition probe (c : Cache) (addr : Z) : res (Cache * lineref * CacheLine * bool) :=
  '(idx, t) ← _index_tag (cfg c) addr;
  '(si, ways) ← py_getitem (lines c) idx;
  match list_find (line_matches t) ways with
  | Some (wi, line) => Ok (c, (si, wi), line, true)
  | None =>
      '(ci, cur) ← py_getitem (repl_idx c) idx;
      '(wi, repl) ← py_getitem ways cur;
      nxt ← py_mod (cur + 1) (assoc (cfg c));
      let c1 := mkCache (cfg c) (lines c) (<[ci := nxt]> (repl_idx c)) in
      let repl' := evict t repl in
      Ok (store c1 (si, wi) repl', (si, wi), repl', false)
  end.

(** ** The false-sharing detector *)

Definition _maybe_detect (cf : Config) (line : CacheLine) (core word_idx : Z)
    (st : gmap string Z) (lg : Logger) : CacheLine * gmap string Z * Logger :=
  if decide (state line = INVALID) then (line, st, lg)
  else if decide (last_writer_core line ≠ -1 ∧ last_writer_core line ≠ core
                  ∧ last_word line ≠ word_idx) then
    let line1 := set_fs_conf (Z.min (fs_conf line + 1) 3) line in
    let '(line2, st2) :=
      if decide (fs_threshold cf ≤ fs_conf line1 ∧ fs_suspect line1 = false)
      then (set_fs_suspect true line1, incr "suspect_lines" 1 st)
      else (line1, st) in
    (line2, incr "suspect_events" 1 st2, log_suspect lg core line2 word_idx)
  else (set_fs_conf (Z.max (fs_conf line - 1) 0) line, st, lg).

(** ** Coherence resolution *)

(** [line.fs_suspect and cfg.false_sharing_fix and line.last_word != word_idx] *)
Definition suppressed (cf : Config) (line : CacheLine) (word_idx : Z) : bool :=
  fs_suspect line && false_sharing_fix cf && bool_decide (last_word line ≠ word_idx).

(** The condition guarding the write-hit coherence event. *)
Definition remote_holder (line : CacheLine) (core : Z) : Prop :=
  (state line = SHARED ∨ state line = EXCLUSIVE ∨ state line = MODIFIED)
  ∧ owner line ≠ Some core.

Global Instance remote_holder_dec line core : Decision (remote_holder line core).
Proof. unfold remote_holder. apply _. Defined.

(** The condition guarding the read-hit coherence event. *)
Definition remote_modified (line : CacheLine) (core : Z) : Prop :=
  state line = MODIFIED ∧ owner line ≠ Some core.

Global Instance remote_modified_dec line core : Decision (remote_modified line core).
Proof. unfold remote_modified. apply _. Defined.

(** The condition guarding the charge on the miss path. *)
Definition conflicting_owner (line : CacheLine) (core : Z) : Prop :=
  state line ≠ INVALID ∧ owner line ≠ None ∧ owner line ≠ Some core.

Global Instance conflicting_owner_dec line core : Decision (conflicting_owner line core).
Proof. unfold conflicting_owner. apply _. Defined.

(** The [if hit:] branch of [access]. *)
Definition access_hit (cf : Config) (core : Z) (is_write : bool) (word_idx : Z)
    (line : CacheLine) (st : gmap string Z) (lg : Logger)
  : CacheLine * gmap string Z * Logger :=
  let '(line', st', lg') :=
    if is_write then
      if decide (remote_holder line core) then
        let '(l1, st1, lg1) := _maybe_detect cf line core word_idx st lg in
        let '(l2, st2) :=
          if negb (suppressed cf l1 word_idx) then
            (set_sharers {[Some core]} l1,
             incr "stall_cycles" (inv_latency cf)
               (incr "invalidations"
                  (Z.of_nat (size (sharers l1 ∖ {[Some core]}))) st1))
          else
            (l1, incr "avoided_invalidations"
                   (Z.of_nat (size (sharers l1 ∖ {[Some core]}))) st1) in
        (set_state MODIFIED (set_owner (Some core) l2), st2, lg1)
      else
        (set_state MODIFIED (set_owner (Some core) line), st, lg)
    else
      if decide (remote_modified line core) then
        let '(l1, st1, lg1) := _maybe_detect cf line core word_idx st lg in
        if negb (suppressed cf l1 word_idx) then
          (set_state SHARED (set_sharers {[Some core; owner l1]} l1),
           incr "stall_cycles" (inv_latency cf) (incr "invalidations" 1 st1),
           lg1)
        else
          (set_state SHARED (set_sharers ({[Some core]} ∪ sharers l1) l1),
           incr "avoided_invalidations" 1 st1, lg1)
      else
        let l1 := set_sharers ({[Some core]} ∪ sharers line) line in
        (if decide (state l1 = EXCLUSIVE) then set_state SHARED l1 else l1, st, lg)
  in (line', incr "hits" 1 st', lg').

(** The [else:] (miss) branch of [access]. *)
Definition access_miss (cf : Config) (core : Z) (is_write : bool) (addr word_idx : Z)
    (line : CacheLine) (st : gmap string Z) (lg : Logger)
  : res (CacheLine * gmap string Z * Logger) :=
  let '(l1, st1, lg1) := _maybe_detect cf line core word_idx st lg in
  let st2 :=
    if decide (conflicting_owner l1 core) then
      if negb (suppressed cf l1 word_idx) then
        incr "stall_cycles" (inv_latency cf) (incr "invalidations" 1 st1)
      else incr "avoided_invalidations" 1 st1
    else st1 in
  let l2 :=
    set_sharers {[Some core]}
      (set_state (if is_write then MODIFIED else EXCLUSIVE)
         (set_owner (Some core) l1)) in
  '(_, t) ← _index_tag cf addr;
  Ok (set_tag t l2,
      incr "stall_cycles" (miss_latency cf) (incr "misses" 1 st2), lg1).

(** The final block of [access]: detector metadata is updated on a write
    or when the requester owns the line. *)
Definition update_history (core : Z) (is_write : bool) (word_idx : Z)
    (line : CacheLine) : CacheLine :=
  if is_write || bool_decide (owner line = Some core)
  then set_last core word_idx line else line.

Definition access (c : Cache) (core : Z) (is_write : bool) (addr : Z)
    (st : gmap string Z) (lg : Logger) : res (Cache * gmap string Z * Logger) :=
  word_idx ← _word_idx (cfg c) addr;
  '(c1, r, line, hit) ← probe c addr;
  '(line', st', lg') ←
    (if (hit : bool) then Ok (access_hit (cfg c) core is_write word_idx line st lg)
     else access_miss (cfg c) core is_write addr word_idx line st lg);
  Ok (store c1 r (update_history core is_write word_idx line'), st', lg').

(** ** The interpreter's string functions used by the trace runner

    The trace is ASCII text.  These definitions follow the behaviour of
    [str.strip], [str.split], [str.upper], [str.startswith] and [int] on
    such text. *)

Definition code (a : ascii) : Z := Z.of_N (N_of_ascii a).

(** [str.isspace] on one ASCII character: TAB..CR, FS..US and the space. *)
Definition py_isspace (a : ascii) : bool :=
  ((9 <=? code a) && (code a <=? 13)) || ((28 <=? code a) && (code a <=? 32)).

Fixpoint lstrip (s : list ascii) : list ascii :=
  match s with
  | a :: s' => if py_isspace a then lstrip s' else s
  | [] => []
  end.

Definition py_strip (s : string) : string :=
  String.string_of_list_ascii
    (reverse (lstrip (reverse (lstrip (String.list_ascii_of_string s))))).

(** [s.split()]: maximal runs of non-space characters. *)
Fixpoint split_go (cur : list ascii) (s : list ascii) : list string :=
  match s with
  | [] => match cur with [] => [] | _ => [String.string_of_list_ascii (reverse cur)] end
  | a :: s' =>
      if py_isspace a then
        match cur with
        | [] => split_go [] s'
        | _ => String.string_of_list_ascii (reverse cur) :: split_go [] s'
        end
      else split_go (a :: cur) s'
  end.

Definition py_split (s : string) : list string :=
  split_go [] (String.list_ascii_of_string s).

Definition upper_ascii (a : ascii) : ascii :=
  if (97 <=? code a) && (code a <=? 122)
  then ascii_of_N (N_of_ascii a - 32) else a.

Definition py_upper (s : string) : string :=
  String.string_of_list_ascii (upper_ascii <$> String.list_ascii_of_string s).

Definition py_startswith (s p : string) : bool := String.prefix p s.

(** Value of a digit character in bases up to 36. *)
Definition digit_val (a : ascii) : option Z :=
  let n := code a in
  if (48 <=? n) && (n <=? 57) then Some (n - 48)
  else if (97 <=? n) && (n <=? 122) then Some (n - 87)
  else if (65 <=? n) && (n <=? 90) then Some (n - 55)
  else None.

(** Digits of [base], single underscores allowed between digits.
    [need_digit] holds at the start and after an underscore. *)
Fixpoint parse_digits (base acc : Z) (need_digit : bool) (s : list ascii)
  : option Z :=
  match s with
  | [] => if need_digit then None else Some acc
  | a :: s' =>
      if decide (a = "_"%char) then
        if need_digit then None else parse_digits base acc true s'
      else
        match digit_val a with
        | Some d =>
            if d <? base then parse_digits base (acc * base + d) false s'
            else None
        | None => None
        end
  end.

(** An optional sign in front of the literal. *)
Definition split_sign (s : list ascii) : Z * list ascii :=
  match s with
  | a :: s' =>
      if decide (a = "+"%char) then (1, s')
      else if decide (a = "-"%char) then (-1, s')
      else (1, s)
  | [] => (1, [])
  end.

Definition of_option {A} (o : option A) : res A :=
  match o with Some a => Ok a | None => Raise ValueError end.

(** [int(s)] *)
Definition py_int (s : string) : res Z :=
  let '(sg, body) :=
    split_sign (reverse (lstrip (reverse (lstrip (String.list_ascii_of_string s))))) in
  n ← of_option (parse_digits 10 0 true body);
  Ok (sg * n).

(** After a base prefix one underscore may precede the digits. *)
Definition after_prefix (base : Z) (s : list ascii) : option Z :=
  match s with
  | a :: s' =>
      if decide (a = "_"%char) then parse_digits base 0 true s'
      else parse_digits base 0 true s
  | [] => None
  end.

(** [int(s, 0)]: the base is read off the prefix; a decimal literal with a
    leading zero must denote zero. *)
Definition py_int0 (s : string) : res Z :=
  let '(sg, body) :=
    split_sign (reverse (lstrip (reverse (lstrip (String.list_ascii_of_string s))))) in
  n ← of_option
        match body with
        | z :: p :: rest =>
            if decide (z = "0"%char) then
              if decide (p = "x"%char ∨ p = "X"%char) then after_prefix 16 rest
              else if decide (p = "o"%char ∨ p = "O"%char) then after_prefix 8 rest
              else if decide (p = "b"%char ∨ p = "B"%char) then after_prefix 2 rest
              else match parse_digits 10 0 true body with
                   | Some 0 => Some 0
                   | _ => None
                   end
            else parse_digits 10 0 true body
        | _ => parse_digits 10 0 true body
        end;
  Ok (sg * n).

(** ** The trace runner *)

(** The body of the [for line in f] loop. *)
Definition run_line (cf : Config) (ln : string)
    (s : Cache * gmap string Z * Logger) : res (Cache * gmap string Z * Logger) :=
  if bool_decide (py_strip ln = ""%string) || py_startswith ln "#" then Ok s
  else
    let parts := py_split (py_strip ln) in
    p0 ← py_getitem parts 0;
    core ← py_int p0.2;
    p1 ← py_getitem parts 1;
    let op := py_upper p1.2 in
    p2 ← py_getitem parts 2;
    addr ← py_int0 p2.2;
    let is_write := py_startswith op "W" in
    '(c', st', lg') ← access s.1.1 core is_write addr s.1.2 s.2;
    Ok (c', incr "stall_cycles" (hit_latency cf) (incr "instructions" 1 st'), lg').

Fixpoint run_lines (cf : Config) (trace : list string)
    (s : Cache * gmap string Z * Logger) : res (Cache * gmap string Z * Logger) :=
  match trace with
  | [] => Ok s
  | ln :: rest => s' ← run_line cf ln s; run_lines cf rest s'
  end.

(** State before the first line: a fresh cache, [stats["instructions"] = 0]
    and the logger. *)
Definition run_init (cf : Config) (log_path : option string)
  : Cache * gmap string Z * Logger :=
  (Cache_new cf, {["instructions" := 0]}, Logger_new log_path).

(** The counters at the end of the loop, before the derived metrics. *)
Definition run_counters (trace : list string) (cf : Config)
    (log_path : option string) : res (gmap string Z) :=
  s ← run_lines cf trace (run_init cf log_path); Ok s.1.2.

(** Values of the returned dictionary. *)
Inductive pynum (F : Type) := PInt (n : Z) | PFloat (x : F).
Arguments PInt {F} n.
Arguments PFloat {F} x.

Section Derived.
(** Floating-point arithmetic of the interpreter: conversion from [int],
    product, quotient, true division of two [int]s.  The literals
    [1000.0] and [0.0] are the conversions of 1000 and 0. *)
Variable F : Type.
Variable float_of_int : Z → F.
Variable float_mul float_div : F → F → F.
Variable int_truediv : Z → Z → F.

(** The derived statistics.  Reading a missing key of a [defaultdict]
    inserts it. *)
Definition derive (st : gmap string Z) : gmap string (pynum F) :=
  let st1 := <["invalidations" := stat st "invalidations"]> st in
  let inv := stat st1 "invalidations" in
  let instr := Z.max (stat st1 "instructions") 1 in
  let ipki := float_div (float_mul (float_of_int inv) (float_of_int 1000))
                        (float_of_int instr) in
  let st2 := <["stall_cycles" := stat st1 "stall_cycles"]> st1 in
  let total_cycles := stat st2 "stall_cycles" in
  let ipc := if decide (total_cycles ≠ 0) then int_truediv instr total_cycles
             else float_of_int 0 in
  <["ipc_proxy" := PFloat ipc]> (<["ipki" := PFloat ipki]> (PInt <$> st2)).

Definition run_trace (trace : list string) (cf : Config)
    (log_path : option string) : res (gmap string (pynum F)) :=
  st ← run_counters trace cf log_path; Ok (derive st).

(** Reading a counter of the returned dictionary. *)
Definition counter (d : gmap string (pynum F)) (k : string) : pynum F :=
  default (PInt 0) (d !! k).
End Derived.
Arguments derive {F} _ _ _ _ st.
Arguments run_trace {F} _ _ _ _ trace cf log_path.
Arguments counter {F} d k.

(** The free model of the floating-point operations: a derived metric is
    the expression that computes it. *)
Inductive fexpr :=
| FInt (n : Z)
| FMul (x y : fexpr)
| FDiv (x y : fexpr)
| FTrueDiv (a b : Z).

Definition run_trace_sym : list string → Config → option string
    → res (gmap string (pynum fexpr)) :=
  run_trace FInt FMul FDiv FTrueDiv.

(** ** Notions used to state the specification *)

(** The line a reference points to. *)
Definition line_at (c : Cache) (r : lineref) : option CacheLine :=
  ways ← lines c !! r.1; ways !! r.2.

(** [self.repl_idx[idx]] *)
Definition cursor (c : Cache) (idx : Z) : res Z :=
  p ← py_getitem (repl_idx c) idx; Ok p.2.

(** Caches that a run can reach from the fresh cache of a configuration. *)
Inductive reachable (cf : Config) : Cache → Prop :=
| reachable_new : reachable cf (Cache_new cf)
| reachable_access c core is_write addr st lg c' st' lg' :
    reachable cf c →
    access c core is_write addr st lg = Ok (c', st', lg') →
    reachable cf c'.

(** A valid line has an owner and at least one sharer. *)
Definition line_ok (l : CacheLine) : Prop :=
  state l ≠ INVALID → is_Some (owner l) ∧ sharers l ≠ ∅.

(** A valid line is owned by one of its sharers. *)
Definition line_owned (l : CacheLine) : Prop :=
  state l ≠ INVALID → is_Some (owner l) ∧ owner l ∈ sharers l.

Definition all_lines (P : CacheLine → Prop) (c : Cache) : Prop :=
  Forall (Forall P) (lines c).

(** Whether a computation returned. *)
Definition is_Ok {A} (r : res A) : bool :=
  match r with Ok _ => true | Raise _ => false end.

(** First component of a result. *)
Definition res_fst {A B} (r : res (A * B)) : res A :=
  match r with Ok p => Ok p.1 | Raise e => Raise e end.

(** ** Configurations and traces of the examples *)

(** The defaults with [--false-sharing-fix]. *)
Definition Config_fix : Config := mkConfig 64 64 8 4 2 true 4 40 10.

(** One set of two ways, the other parameters at their defaults. *)
Definition Config_2way (mitigate : bool) : Config :=
  mkConfig 64 1 2 4 2 mitigate 4 40 10.

(** The state after a trace, without logging. *)
Definition state_after (cf : Config) (trace : list string)
  : res (Cache * gmap string Z * Logger) :=
  run_lines cf trace (run_init cf None).

(** Eight writes by core 0 to eight different lines of set 0 (line
    addresses 0, 64, ..., 448): with the default geometry they fill the set
    and bring its cursor back to way 0. *)
Definition trace_fill_set0 : list string :=
  ["0 W 0x0"; "0 W 0x1000"; "0 W 0x2000"; "0 W 0x3000";
   "0 W 0x4000"; "0 W 0x5000"; "0 W 0x6000"; "0 W 0x7000"].

(** Two cores write two different words of one line; the third access
    crosses the default threshold and marks the line suspect. *)
Definition trace_ping_pong : list string :=
  ["0 W 0x0"; "1 W 0x4"; "0 W 0x0"].

(** The cache of [Config_2way true] after [trace_ping_pong]: way 0 holds
    line 0, Modified by core 0, suspect, with the stale sharer 1. *)
Definition cache_suspect : Cache :=
  mkCache (Config_2way true)
    [[mkLine 0 MODIFIED (Some 0) {[Some 1]} 0 0 2 true; CacheLine_new]] [1].

(** The cache of [Config_2way false] after [0 W 0x0]: way 0 holds line 0,
    Modified by core 0. *)
Definition cache_owned0 : Cache :=
  mkCache (Config_2way false)
    [[mkLine 0 MODIFIED (Some 0) {[Some 0]} 0 0 0 false; CacheLine_new]] [1].

(** ** Notions used by the further properties *)

(** Configurations under which an access can complete: no divisor is zero
    and the line matrix has at least one set and one way. *)
Definition usable (cf : Config) : Prop :=
  line_bytes cf ≠ 0 ∧ 0 < sets cf ∧ 0 < assoc cf ∧ word_bytes cf ≠ 0 ∧
  line_bytes cf `div` word_bytes cf ≠ 0.

(** The geometry [Cache.__init__] builds: [sets] rows of [assoc] lines, one
    cursor per set, every cursor a valid way index. *)
Definition shaped (c : Cache) : Prop :=
  length (lines c) = Z.to_nat (sets (cfg c)) ∧
  Forall (λ ways, length ways = Z.to_nat (assoc (cfg c))) (lines c) ∧
  length (repl_idx c) = Z.to_nat (sets (cfg c)) ∧
  Forall (λ z, 0 ≤ z < Z.max 1 (assoc (cfg c))) (repl_idx c).

(** The test of the [continue] statement in the trace loop. *)
Definition skipped (ln : string) : bool :=
  bool_decide (py_strip ln = ""%string) || py_startswith ln "#".

(** The log agrees with the counter of detector firings: a header, then
    one row of eight fields per firing, numbered from 1. *)
Definition log_consistent (st : gmap string Z) (lg : Logger) : Prop :=
  match rows lg with
  | Some rs =>
      rs !! 0%nat = Some csv_header ∧
      Z.of_nat (length rs) = 1 + event_id lg ∧
      event_id lg = stat st "suspect_events" ∧
      ∀ k row, rs !! S k = Some row →
               row !! 0%nat = Some (CInt (Z.of_nat (S k))) ∧ length row = 8%nat
  | None => True
  end.

(** Whether the logger has a writer. *)
Definition has_rows (lg : Logger) : bool :=
  match rows lg with Some _ => true | None => false end.

Definition sumZ {A} (f : A → Z) (l : list A) : Z := foldr (λ x n, f x + n) 0 l.

Definition suspect_bit (l : CacheLine) : Z := if fs_suspect l then 1 else 0.

(** The number of slots of the line matrix whose suspect latch is set. *)
Definition suspect_slots (c : Cache) : Z := sumZ (sumZ suspect_bit) (lines c).

(** The core field of a record, as the trace loop reads it. *)
Definition record_core (ln : string) : res Z :=
  p0 ← py_getitem (py_split (py_strip ln)) 0; py_int p0.2.

(** Every valid line is owned by the given core. *)
Definition owned_by (k : Z) (l : CacheLine) : Prop :=
  state l ≠ INVALID → owner l = Some k.

(** ** plot_results.py: the argument checks of [main]

    [main] exits when the baseline and fix lists differ in length, or when
    labels are given and their number differs; otherwise it plots with the
    given labels or with the default labels [w0], [w1], ...  Loading the
    statistics files in between keeps the lengths of the lists.  The result
    is the exit message or the labels. *)
Definition main_labels (baseline fix_ : list string)
    (labels : option (list string)) : string + list string :=
  if decide (length baseline ≠ length fix_) then
    inl "baseline and fix lists must have same length"%string
  else
    match labels with
    | Some (x :: xs) =>
        if decide (length (x :: xs) ≠ length baseline) then
          inl "labels length must match baseline/fix"%string
        else inr (x :: xs)
    | _ => inr ((λ i : nat, "w" +:+ pretty i) <$> seq 0 (length baseline))
    end.

(** No two valid lines of a set carry the same tag. *)
Definition row_unique (ways : list CacheLine) : Prop :=
  ∀ i j li lj, ways !! i = Some li → ways !! j = Some lj →
               state li ≠ INVALID → state lj ≠ INVALID →
               tag li = tag lj → i = j.

(** ** The result monad *)

Lemma bind_Ok {A B} (m : res A) (f : A → res B) (b : B) :
  m ≫= f = Ok b ↔ ∃ a, m = Ok a ∧ f a = Ok b.
Proof.
  destruct m as [a|e]; simpl.
  - split; [eauto | intros (a' & [= <-] & H); exact H].
  - split; [discriminate | intros (a' & H & _); discriminate].
Qed.

Ltac inv_bind H :=
  let a := fresh "a" in
  let E := fresh "E" in
  apply bind_Ok in H as (a & E & H); simpl in H.

Lemma py_floordiv_Ok a b q : py_floordiv a b = Ok q ↔ b ≠ 0 ∧ q = a `div` b.
Proof.
  unfold py_floordiv. destruct (decide (b = 0)) as [Hb|Hb]; split.
  - discriminate.
  - intros [? _]. done.
  - intros [= <-]. done.
  - intros [_ ->]. done.
Qed.

Lemma py_mod_Ok a b q : py_mod a b = Ok q ↔ b ≠ 0 ∧ q = a `mod` b.
Proof.
  unfold py_mod. destruct (decide (b = 0)) as [Hb|Hb]; split.
  - discriminate.
  - intros [? _]. done.
  - intros [= <-]. done.
  - intros [_ ->]. done.
Qed.

Lemma py_getitem_Ok {A} (l : list A) i n a :
  py_getitem l i = Ok (n, a) → l !! n = Some a.
Proof.
  unfold py_getitem. intros H. inv_bind H.
  destruct (l !! a0) eqn:El; naive_solver.
Qed.

Lemma py_pos_length len1 len2 i : len1 = len2 → py_pos len1 i = py_pos len2 i.
Proof. by intros ->. Qed.

Lemma _index_tag_Ok cf addr idx t :
  _index_tag cf addr = Ok (idx, t) ↔
  line_bytes cf ≠ 0 ∧ sets cf ≠ 0 ∧
  t = addr `div` line_bytes cf ∧ idx = t `mod` sets cf.
Proof.
  unfold _index_tag. split.
  - intros H. inv_bind H. inv_bind H.
    apply py_floordiv_Ok in E as [? ->]. apply py_mod_Ok in E0 as [? ->].
    naive_solver.
  - intros (Hl & Hs & -> & ->).
    unfold py_floordiv, py_mod. repeat case_decide; done.
Qed.

Lemma _word_idx_any cf a w a' :
  _word_idx cf a = Ok w → ∃ w', _word_idx cf a' = Ok w'.
Proof.
  unfold _word_idx. intros H. inv_bind H. inv_bind H.
  apply py_floordiv_Ok in E as [? _]. apply py_floordiv_Ok in E0 as [_ ->].
  apply py_mod_Ok in H as [? _].
  unfold py_floordiv, py_mod. repeat case_decide; try done. simpl.
  case_decide; [done | eauto].
Qed.

(** ** Storing through a line reference *)

Lemma store_cfg c r l : cfg (store c r l) = cfg c.
Proof. unfold store. by destruct (lines c !! r.1). Qed.

Lemma store_repl_idx c r l : repl_idx (store c r l) = repl_idx c.
Proof. unfold store. by destruct (lines c !! r.1). Qed.

Lemma store_length c r l : length (lines (store c r l)) = length (lines c).
Proof.
  unfold store. destruct (lines c !! r.1); [|done]. simpl. apply length_insert.
Qed.

Lemma store_line_at c r l :
  is_Some (line_at c r) → line_at (store c r l) r = Some l.
Proof.
  unfold line_at, store. intros [x Hx].
  destruct (lines c !! r.1) as [ways|] eqn:Ew; [|done]. simpl in *.
  rewrite list_lookup_insert_eq; [|by eapply lookup_lt_Some]. simpl.
  apply list_lookup_insert_eq. by eapply lookup_lt_Some.
Qed.

Lemma store_row c r l ways :
  lines c !! r.1 = Some ways →
  lines (store c r l) !! r.1 = Some (<[r.2 := l]> ways).
Proof.
  unfold store. intros H. rewrite H. simpl.
  apply list_lookup_insert_eq. by eapply lookup_lt_Some.
Qed.

Lemma store_all_lines (P : CacheLine → Prop) c r l :
  all_lines P c → P l → all_lines P (store c r l).
Proof.
  unfold all_lines, store. intros Hc Hl.
  destruct (lines c !! r.1) as [ways|] eqn:Ew; [|done]. simpl.
  apply Forall_insert; [done|]. apply Forall_insert; [|done].
  by eapply Forall_lookup_1.
Qed.

(** ** Probing *)

Lemma probe_hit c addr c' r line :
  probe c addr = Ok (c', r, line, true) →
  ∃ idx t ways,
    _index_tag (cfg c) addr = Ok (idx, t) ∧
    py_getitem (lines c) idx = Ok (r.1, ways) ∧
    ways !! r.2 = Some line ∧ line_matches t line ∧ c' = c.
Proof.
  unfold probe. intros H. inv_bind H. destruct a as [idx t]. inv_bind H.
  destruct a as [si ways].
  destruct (list_find (line_matches t) ways) as [[wi l]|] eqn:Ef.
  - injection H as <- <- <-. apply list_find_Some in Ef as (Hl & Hm & _).
    exists idx, t, ways. done.
  - inv_bind H. destruct a as [ci cur]. inv_bind H. destruct a as [wi repl].
    inv_bind H. discriminate.
Qed.

Lemma probe_miss c addr c' r line :
  probe c addr = Ok (c', r, line, false) →
  ∃ idx t ways ci cur repl,
    _index_tag (cfg c) addr = Ok (idx, t) ∧
    py_getitem (lines c) idx = Ok (r.1, ways) ∧
    list_find (line_matches t) ways = None ∧
    py_getitem (repl_idx c) idx = Ok (ci, cur) ∧
    py_getitem ways cur = Ok (r.2, repl) ∧
    assoc (cfg c) ≠ 0 ∧
    line = evict t repl ∧
    c' = store (mkCache (cfg c) (lines c)
                  (<[ci := (cur + 1) `mod` assoc (cfg c)]> (repl_idx c))) r line.
Proof.
  unfold probe. intros H. inv_bind H. destruct a as [idx t]. inv_bind H.
  destruct a as [si ways].
  destruct (list_find (line_matches t) ways) as [[wi l]|] eqn:Ef; [discriminate|].
  inv_bind H. destruct a as [ci cur]. inv_bind H. destruct a as [wi repl].
  inv_bind H. apply py_mod_Ok in E3 as [Ha ->].
  injection H as <- <- <-. exists idx, t, ways, ci, cur, repl. done.
Qed.

Lemma probe_cfg c addr c' r line hit :
  probe c addr = Ok (c', r, line, hit) → cfg c' = cfg c.
Proof.
  destruct hit; intros H.
  - apply probe_hit in H as (? & ? & ? & _ & _ & _ & _ & ->). done.
  - apply probe_miss in H as (? & ? & ? & ? & ? & ? & _ & _ & _ & _ & _ & _ & _ & ->).
    by rewrite store_cfg.
Qed.

Lemma probe_length c addr c' r line hit :
  probe c addr = Ok (c', r, line, hit) → length (lines c') = length (lines c).
Proof.
  destruct hit; intros H.
  - apply probe_hit in H as (? & ? & ? & _ & _ & _ & _ & ->). done.
  - apply probe_miss in H as (? & ? & ? & ? & ? & ? & _ & _ & _ & _ & _ & _ & _ & ->).
    by rewrite store_length.
Qed.

Lemma probe_line_at c addr c' r line hit :
  probe c addr = Ok (c', r, line, hit) → line_at c' r = Some line.
Proof.
  destruct hit; intros H.
  - apply probe_hit in H as (? & ? & ways & _ & Hg & Hw & _ & ->).
    apply py_getitem_Ok in Hg. unfold line_at. by rewrite Hg.
  - apply probe_miss in H as (? & ? & ways & ? & ? & repl & _ & Hg & _ & _ & Hr & _ & _ & ->).
    apply py_getitem_Ok in Hg, Hr. apply store_line_at.
    unfold line_at. simpl. rewrite Hg. simpl. eauto.
Qed.

(** A miss hands [access] a line that has just been reset. *)
Lemma probe_miss_reset c addr c' r line :
  probe c addr = Ok (c', r, line, false) →
  state line = INVALID ∧ owner line = None ∧ sharers line = ∅.
Proof.
  intros H.
  apply probe_miss in H as (? & ? & ? & ? & ? & ? & _ & _ & _ & _ & _ & _ & -> & _).
  done.
Qed.

Lemma probe_all_lines (P : CacheLine → Prop) c addr c' r line hit :
  (∀ t l, P (evict t l)) →
  all_lines P c → probe c addr = Ok (c', r, line, hit) →
  all_lines P c' ∧ P line.
Proof.
  intros HP Hc. destruct hit; intros H.
  - apply probe_hit in H as (? & ? & ways & _ & Hg & Hw & _ & ->).
    apply py_getitem_Ok in Hg. split; [done|].
    eapply Forall_lookup_1; [|exact Hw]. by eapply Forall_lookup_1.
  - apply probe_miss in H as (? & ? & ways & ? & ? & repl & _ & _ & _ & _ & _ & _ & -> & ->).
    split; [|done]. by apply store_all_lines.
Qed.

(** ** Counters *)

Lemma stat_incr_eq k n st : stat (incr k n st) k = stat st k + n.
Proof. unfold stat at 1, incr. by rewrite lookup_insert_eq. Qed.

Lemma stat_incr_ne k k' n st : k ≠ k' → stat (incr k n st) k' = stat st k'.
Proof. intros. unfold stat, incr. by rewrite lookup_insert_ne. Qed.

Lemma lookup_incr_ne k k' n (st : gmap string Z) :
  k ≠ k' → incr k n st !! k' = st !! k'.
Proof. intros. unfold incr. by rewrite lookup_insert_ne. Qed.

Ltac simpl_stat :=
  repeat first
    [ rewrite stat_incr_eq
    | rewrite stat_incr_ne by done
    | rewrite lookup_incr_ne by done ].

(** ** The detector *)

(** The detector leaves the coherence fields and the history alone, and
    touches only its own two counters. *)
Lemma detect_frame cf line core w st lg l1 st1 lg1 :
  _maybe_detect cf line core w st lg = (l1, st1, lg1) →
  tag l1 = tag line ∧ state l1 = state line ∧ owner l1 = owner line ∧
  sharers l1 = sharers line ∧ last_writer_core l1 = last_writer_core line ∧
  last_word l1 = last_word line ∧
  ∀ k, k ≠ "suspect_lines"%string → k ≠ "suspect_events"%string →
       st1 !! k = st !! k.
Proof.
  unfold _maybe_detect. intros H.
  repeat case_decide; simplify_eq; simpl; repeat split; try done;
    intros; by simpl_stat.
Qed.

(** On an Invalid line the detector does nothing at all. *)
Lemma detect_invalid cf line core w st lg :
  state line = INVALID → _maybe_detect cf line core w st lg = (line, st, lg).
Proof. unfold _maybe_detect. intros ->. by case_decide. Qed.

Lemma update_history_frame core w wd l :
  tag (update_history core w wd l) = tag l ∧
  state (update_history core w wd l) = state l ∧
  owner (update_history core w wd l) = owner l ∧
  sharers (update_history core w wd l) = sharers l.
Proof. unfold update_history. by destruct (_ || _). Qed.

(** ** One access *)

Lemma access_Ok c core w addr st lg c' st' lg' :
  access c core w addr st lg = Ok (c', st', lg') →
  ∃ word_idx c1 r line hit line',
    _word_idx (cfg c) addr = Ok word_idx ∧
    probe c addr = Ok (c1, r, line, hit) ∧
    (if hit then Ok (access_hit (cfg c) core w word_idx line st lg)
     else access_miss (cfg c) core w addr word_idx line st lg)
      = Ok (line', st', lg') ∧
    c' = store c1 r (update_history core w word_idx line').
Proof.
  unfold access. intros H. inv_bind H. inv_bind H.
  destruct a0 as [[[c1 r] line] hit]. inv_bind H.
  destruct a0 as [[line' st2] lg2]. injection H as <- <- <-.
  exists a, c1, r, line, hit, line'. done.
Qed.

Lemma access_cfg c core w addr st lg c' st' lg' :
  access c core w addr st lg = Ok (c', st', lg') → cfg c' = cfg c.
Proof.
  intros H. apply access_Ok in H as (? & ? & ? & ? & ? & ? & _ & Hp & _ & ->).
  rewrite store_cfg. by eapply probe_cfg.
Qed.

Lemma access_line_at c core w addr st lg c' st' lg' :
  access c core w addr st lg = Ok (c', st', lg') →
  ∀ word_idx c1 r line hit,
    _word_idx (cfg c) addr = Ok word_idx →
    probe c addr = Ok (c1, r, line, hit) →
    ∃ line',
      (if hit then Ok (access_hit (cfg c) core w word_idx line st lg)
       else access_miss (cfg c) core w addr word_idx line st lg)
        = Ok (line', st', lg') ∧
      line_at c' r = Some (update_history core w word_idx line').
Proof.
  intros H word_idx c1 r line hit Hw Hp.
  apply access_Ok in H as (w0 & c0 & r0 & l0 & h0 & line' & Hw' & Hp' & Hs & ->).
  rewrite Hw in Hw'. rewrite Hp in Hp'. simplify_eq.
  exists line'. split; [done|]. apply store_line_at.
  rewrite (probe_line_at _ _ _ _ _ _ Hp). eauto.
Qed.

(** A hit keeps the tag and leaves the line valid. *)
Lemma access_hit_resident cf core w wd line st lg :
  state line ≠ INVALID →
  tag (access_hit cf core w wd line st lg).1.1 = tag line ∧
  state (access_hit cf core w wd line st lg).1.1 ≠ INVALID.
Proof.
  intros Hs. unfold access_hit.
  destruct (_maybe_detect cf line core wd st lg) as [[l1 st1] lg1] eqn:Ed.
  apply detect_frame in Ed as (Ht & Hst & _).
  destruct w; repeat case_decide; try destruct (negb _); simpl in *;
    try (split; congruence).
Qed.

(** A miss installs the new tag in state Modified or Exclusive. *)
Lemma access_miss_installed cf core w addr wd line st lg line' st' lg' :
  access_miss cf core w addr wd line st lg = Ok (line', st', lg') →
  tag line' = addr `div` line_bytes cf ∧
  state line' = (if w then MODIFIED else EXCLUSIVE) ∧
  owner line' = Some core ∧ sharers line' = {[Some core]}.
Proof.
  unfold access_miss. intros H.
  destruct (_maybe_detect cf line core wd st lg) as [[l1 st1] lg1] eqn:Ed.
  inv_bind H. destruct a as [idx t].
  apply _index_tag_Ok in E as (_ & _ & -> & _). by simplify_eq.
Qed.

(** Counters of a hit. *)
Lemma access_hit_counts cf core w wd line st lg :
  stat (access_hit cf core w wd line st lg).1.2 "hits" = stat st "hits" + 1 ∧
  stat (access_hit cf core w wd line st lg).1.2 "misses" = stat st "misses".
Proof.
  unfold access_hit.
  destruct (_maybe_detect cf line core wd st lg) as [[l1 st1] lg1] eqn:Ed.
  apply detect_frame in Ed as (_ & _ & _ & _ & _ & _ & Hf).
  assert (Hh : stat st1 "hits" = stat st "hits") by (unfold stat; by rewrite Hf).
  assert (Hm : stat st1 "misses" = stat st "misses") by (unfold stat; by rewrite Hf).
  destruct w; repeat case_decide; try destruct (negb _); simpl;
    simpl_stat; rewrite ?Hh, ?Hm; done.
Qed.

(** ** The replacement cursor *)

Lemma py_getitem_insert {A} (l : list A) i n a b :
  py_getitem l i = Ok (n, a) → py_getitem (<[n := b]> l) i = Ok (n, b).
Proof.
  unfold py_getitem. rewrite length_insert. intros H. inv_bind H.
  destruct (l !! a0) eqn:El; [|done]. injection H as <- <-.
  rewrite E. simpl. rewrite list_lookup_insert_eq; [done|].
  by eapply lookup_lt_Some.
Qed.

(** C3 (as amended): a probe that misses advances the round-robin cursor
    of the addressed set by one modulo the associativity; a probe that hits
    returns before the cursor is touched and leaves the whole cache, the
    cursor included, as it was. *)
Theorem probe_cursor c addr c' r line hit idx t cur :
  _index_tag (cfg c) addr = Ok (idx, t) →
  cursor c idx = Ok cur →
  probe c addr = Ok (c', r, line, hit) →
  cursor c' idx = Ok (if hit then cur else (cur + 1) `mod` assoc (cfg c)) ∧
  (hit = true → c' = c).
Proof.
  intros Hi Hc Hp. destruct hit.
  - apply probe_hit in Hp as (? & ? & ? & _ & _ & _ & _ & ->). done.
  - split; [|done].
    apply probe_miss in Hp
      as (idx' & t' & ways & ci & cur' & repl & Hi' & _ & _ & Hg & _ & _ & _ & ->).
    rewrite Hi in Hi'. injection Hi' as <- <-.
    unfold cursor in *. rewrite store_repl_idx. simpl.
    rewrite Hg in Hc. simpl in Hc. injection Hc as <-.
    by rewrite (py_getitem_insert _ _ _ _ _ Hg).
Qed.

Lemma probe_cursor_witness :
  ∃ c' r line,
    probe (Cache_new (Config_2way false)) 64 = Ok (c', r, line, false) ∧
    cursor c' 0 = Ok 1.
Proof.
  do 3 eexists. split; [vm_compute; reflexivity|].
  eapply (probe_cursor (Cache_new (Config_2way false)) 64 _ _ _ false 0 1 0);
    vm_compute; reflexivity.
Defined.

(** C3 as stated fails: after [0 W 0x0] under the default configuration
    the cursor of set 0 is 1; probing address 0 again hits, and the cursor
    is still 1, not (1 + 1) mod 8 = 2. *)
Lemma probe_hit_keeps_cursor :
  (s ← state_after Config_default ["0 W 0x0"];
   p ← probe s.1.1 0;
   Ok (p.2, cursor s.1.1 0, cursor p.1.1.1 0, (1 + 1) `mod` assoc (cfg s.1.1)))
  = Ok (true, Ok 1, Ok 1, 2).
Proof. vm_compute. reflexivity. Qed.

(** ** Residency after an access *)

Lemma py_getitem_length {A} (l l' : list A) i n a :
  length l' = length l → py_getitem l i = Ok (n, a) →
  ∀ a', l' !! n = Some a' → py_getitem l' i = Ok (n, a').
Proof.
  unfold py_getitem. intros Hl H a' Ha'. rewrite Hl. inv_bind H.
  destruct (l !! a0) eqn:El; [|done]. injection H as <- <-.
  rewrite E. simpl. by rewrite Ha'.
Qed.

(** The line an access leaves behind, located in its set. *)
Lemma access_resident c core w addr st lg c' st' lg' :
  access c core w addr st lg = Ok (c', st', lg') →
  ∃ idx t r ways l,
    _index_tag (cfg c) addr = Ok (idx, t) ∧
    py_getitem (lines c') idx = Ok (r.1, ways) ∧ ways !! r.2 = Some l ∧
    tag l = t ∧ state l ≠ INVALID.
Proof.
  intros H. apply access_Ok in H
    as (wd & c1 & r & line & hit & line' & Hw & Hp & Hs & ->).
  pose proof (probe_line_at _ _ _ _ _ _ Hp) as Hat.
  pose proof (probe_length _ _ _ _ _ _ Hp) as Hlen.
  unfold line_at in Hat. destruct (lines c1 !! r.1) as [ways1|] eqn:Ew1; [|done].
  simpl in Hat.
  assert (∃ idx t ways0, _index_tag (cfg c) addr = Ok (idx, t) ∧
            py_getitem (lines c) idx = Ok (r.1, ways0)) as (idx & t & ways0 & Hi & Hg).
  { destruct hit.
    - apply probe_hit in Hp as (idx & t & ways & ? & ? & _). eauto.
    - apply probe_miss in Hp as (idx & t & ways & ? & ? & ? & ? & ? & _). eauto. }
  exists idx, t, r, (<[r.2 := update_history core w wd line']> ways1),
    (update_history core w wd line').
  split; [done|]. split.
  { eapply py_getitem_length; [|exact Hg|by apply store_row].
    by rewrite store_length. }
  split. { apply list_lookup_insert_eq. by eapply lookup_lt_Some. }
  destruct (update_history_frame core w wd line') as (-> & -> & _).
  destruct hit.
  - injection Hs as Hs.
    apply probe_hit in Hp as (idx' & t' & ways & Hi' & _ & _ & [Ht Hst] & _).
    rewrite Hi in Hi'. injection Hi' as <- <-.
    destruct (access_hit_resident (cfg c) core w wd line st lg Hst) as [Hr1 Hr2].
    rewrite Hs in Hr1, Hr2. simpl in *. split; congruence.
  - apply access_miss_installed in Hs as (-> & -> & _).
    apply _index_tag_Ok in Hi as (_ & _ & -> & _). by destruct w.
Qed.

(** C10: when [access(core, is_write, addr)] completes, the accessed line
    is resident in its set with a valid state and the tag
    [addr // line_bytes]; an access that follows immediately, by any core,
    read or write, to any address of the same line, completes as a hit: the
    probe finds the line and leaves the cache alone, [hits] grows by one and
    [misses] stays. *)
Theorem access_then_hit c core w addr st lg c' st' lg' :
  access c core w addr st lg = Ok (c', st', lg') →
  (∃ r l, line_at c' r = Some l ∧ state l ≠ INVALID ∧
          tag l = addr `div` line_bytes (cfg c)) ∧
  ∀ core2 w2 addr2 st2 lg2,
    addr2 `div` line_bytes (cfg c) = addr `div` line_bytes (cfg c) →
    (∃ r2 l2, probe c' addr2 = Ok (c', r2, l2, true)) ∧
    ∃ c2 st2' lg2',
      access c' core2 w2 addr2 st2 lg2 = Ok (c2, st2', lg2') ∧
      stat st2' "hits" = stat st2 "hits" + 1 ∧
      stat st2' "misses" = stat st2 "misses".
Proof.
  intros H. pose proof (access_cfg _ _ _ _ _ _ _ _ _ H) as Hcf.
  destruct (access_resident _ _ _ _ _ _ _ _ _ H)
    as (idx & t & r & ways & l & Hi & Hg & Hl & Ht & Hst).
  pose proof Hi as Hi0. apply _index_tag_Ok in Hi0 as (Hlb & Hsets & Ht' & Hidx).
  split.
  { exists r, l. unfold line_at. rewrite (py_getitem_Ok _ _ _ _ Hg). simpl.
    split; [done|]. split; [done|]. congruence. }
  intros core2 w2 addr2 st2 lg2 Hsame.
  assert (Hi2 : _index_tag (cfg c') addr2 = Ok (idx, t)).
  { rewrite Hcf. apply _index_tag_Ok. rewrite Hsame. done. }
  assert (Hfind : is_Some (list_find (line_matches t) ways)).
  { eapply list_find_elem_of; [by eapply list_elem_of_lookup_2|]. done. }
  destruct Hfind as [[wi2 l2] Hfind].
  assert (Hp2 : probe c' addr2 = Ok (c', (r.1, wi2), l2, true)).
  { unfold probe. rewrite Hi2. simpl. rewrite Hg. simpl. by rewrite Hfind. }
  split; [eauto|].
  apply access_Ok in H as (wd & _ & _ & _ & _ & _ & Hw & _).
  destruct (_word_idx_any _ _ _ addr2 Hw) as [wd2 Hw2].
  destruct (access_hit_counts (cfg c) core2 w2 wd2 l2 st2 lg2) as [Hh Hm].
  destruct (access_hit (cfg c) core2 w2 wd2 l2 st2 lg2) as [[l3 st3] lg3] eqn:Eh.
  exists (store c' (r.1, wi2) (update_history core2 w2 wd2 l3)), st3, lg3.
  split; [|done].
  unfold access. rewrite Hcf, Hw2. simpl. rewrite Hp2. simpl.
  rewrite Eh. simpl. reflexivity.
Qed.

Lemma access_then_hit_witness :
  ∃ c' st' lg',
    access (Cache_new (Config_2way false)) 0 true 0 ∅ (Logger_new None)
      = Ok (c', st', lg') ∧
    ∃ c2 st2' lg2',
      access c' 1 false 60 st' lg' = Ok (c2, st2', lg2') ∧
      stat st2' "hits" = stat st' "hits" + 1 ∧
      stat st2' "misses" = stat st' "misses".
Proof.
  assert (Hok : is_Ok (access (Cache_new (Config_2way false)) 0 true 0 ∅
                         (Logger_new None)) = true) by (vm_compute; reflexivity).
  destruct (access (Cache_new (Config_2way false)) 0 true 0 ∅ (Logger_new None))
    as [[[c' st'] lg']|e] eqn:Ea; [|discriminate Hok].
  exists c', st', lg'. split; [reflexivity|].
  destruct (access_then_hit _ _ _ _ _ _ _ _ _ Ea) as [_ Hnext].
  destruct (Hnext 1 false 60 st' lg') as [_ Hhit]; [reflexivity | exact Hhit].
Defined.

(** ** Mitigation disabled *)

Lemma suppressed_off cf l w :
  false_sharing_fix cf = false → suppressed cf l w = false.
Proof. unfold suppressed. intros ->. by destruct (fs_suspect l). Qed.

Lemma access_hit_avoided_off cf core w wd line st lg :
  false_sharing_fix cf = false →
  (access_hit cf core w wd line st lg).1.2 !! "avoided_invalidations"
  = st !! "avoided_invalidations".
Proof.
  intros Hoff. unfold access_hit.
  destruct (_maybe_detect cf line core wd st lg) as [[l1 st1] lg1] eqn:Ed.
  apply detect_frame in Ed as (_ & _ & _ & _ & _ & _ & Hf).
  rewrite (suppressed_off _ _ _ Hoff).
  destruct w; repeat case_decide; simpl; simpl_stat; rewrite ?Hf by done; done.
Qed.

Lemma access_miss_avoided_off cf core w addr wd line st lg line' st' lg' :
  false_sharing_fix cf = false →
  access_miss cf core w addr wd line st lg = Ok (line', st', lg') →
  st' !! "avoided_invalidations" = st !! "avoided_invalidations".
Proof.
  intros Hoff. unfold access_miss.
  destruct (_maybe_detect cf line core wd st lg) as [[l1 st1] lg1] eqn:Ed.
  apply detect_frame in Ed as (_ & _ & _ & _ & _ & _ & Hf).
  rewrite (suppressed_off _ _ _ Hoff). intros H. inv_bind H.
  destruct a as [idx t]. injection H as <- <- <-.
  case_decide; simpl; simpl_stat; rewrite ?Hf by done; done.
Qed.

Lemma access_avoided_off c core w addr st lg c' st' lg' :
  false_sharing_fix (cfg c) = false →
  access c core w addr st lg = Ok (c', st', lg') →
  st' !! "avoided_invalidations" = st !! "avoided_invalidations".
Proof.
  intros Hoff H.
  apply access_Ok in H as (wd & c1 & r & line & hit & line' & _ & _ & Hs & _).
  destruct hit.
  - injection Hs as Hs.
    pose proof (access_hit_avoided_off (cfg c) core w wd line st lg Hoff) as Ha.
    by rewrite Hs in Ha.
  - by eapply access_miss_avoided_off.
Qed.

(** A line of the trace is skipped or is one access followed by the two
    per-instruction increments. *)
Lemma run_line_Ok cf ln s s' :
  run_line cf ln s = Ok s' →
  s' = s ∨
  ∃ core w addr c' st' lg',
    access s.1.1 core w addr s.1.2 s.2 = Ok (c', st', lg') ∧
    s' = (c', incr "stall_cycles" (hit_latency cf) (incr "instructions" 1 st'), lg').
Proof.
  unfold run_line. destruct (_ || _); [intros [= <-]; by left|].
  destruct (py_getitem _ 0) as [p0|e]; [simpl|done].
  destruct (py_int p0.2) as [core|e]; [simpl|done].
  destruct (py_getitem _ 1) as [p1|e]; [simpl|done].
  destruct (py_getitem _ 2) as [p2|e]; [simpl|done].
  destruct (py_int0 p2.2) as [addr|e]; [simpl|done].
  destruct (access _ core _ addr _ _) as [[[c' st'] lg']|e] eqn:Ea; [simpl|done].
  intros [= <-]. right. eauto 10.
Qed.

Lemma run_line_avoided_off cf ln s s' :
  false_sharing_fix (cfg s.1.1) = false →
  run_line cf ln s = Ok s' →
  false_sharing_fix (cfg s'.1.1) = false ∧
  s'.1.2 !! "avoided_invalidations" = s.1.2 !! "avoided_invalidations".
Proof.
  intros Hoff H.
  apply run_line_Ok in H as [->|(core & w & addr & c' & st' & lg' & Ha & ->)];
    [done|]. simpl.
  rewrite (access_cfg _ _ _ _ _ _ _ _ _ Ha). split; [done|].
  simpl_stat. by eapply access_avoided_off.
Qed.

Lemma run_lines_avoided_off cf trace s s' :
  false_sharing_fix (cfg s.1.1) = false →
  run_lines cf trace s = Ok s' →
  s'.1.2 !! "avoided_invalidations" = s.1.2 !! "avoided_invalidations".
Proof.
  revert s. induction trace as [|ln rest IH]; intros s Hoff H; simpl in H.
  - by injection H as <-.
  - inv_bind H. apply run_line_avoided_off in E as [Hoff' Heq]; [|done].
    rewrite <- Heq. by apply IH.
Qed.

(** ** Independence from the logger *)

Lemma detect_logger_indep cf line core w st lg1 lg2 :
  (_maybe_detect cf line core w st lg1).1 = (_maybe_detect cf line core w st lg2).1.
Proof. unfold _maybe_detect. by repeat case_decide. Qed.

Lemma access_hit_logger_indep cf core w wd line st lg1 lg2 :
  (access_hit cf core w wd line st lg1).1 = (access_hit cf core w wd line st lg2).1.
Proof.
  unfold access_hit.
  pose proof (detect_logger_indep cf line core wd st lg1 lg2) as Hd.
  destruct (_maybe_detect cf line core wd st lg1) as [[l1 st1] lg1'].
  destruct (_maybe_detect cf line core wd st lg2) as [[l2 st2] lg2'].
  simpl in Hd. injection Hd as <- <-.
  destruct w; repeat case_decide; try destruct (negb _); done.
Qed.

Lemma access_miss_logger_indep cf core w addr wd line st lg1 lg2 :
  res_fst (access_miss cf core w addr wd line st lg1)
  = res_fst (access_miss cf core w addr wd line st lg2).
Proof.
  unfold access_miss.
  pose proof (detect_logger_indep cf line core wd st lg1 lg2) as Hd.
  destruct (_maybe_detect cf line core wd st lg1) as [[l1 st1] lg1'].
  destruct (_maybe_detect cf line core wd st lg2) as [[l2 st2] lg2'].
  simpl in Hd. injection Hd as <- <-.
  by destruct (_index_tag cf addr) as [[idx t]|e].
Qed.

Lemma access_logger_indep c core w addr st lg1 lg2 :
  res_fst (access c core w addr st lg1) = res_fst (access c core w addr st lg2).
Proof.
  unfold access. destruct (_word_idx (cfg c) addr) as [wd|e]; [simpl|done].
  destruct (probe c addr) as [[[[c1 r] line] hit]|e]; [simpl|done].
  destruct hit; simpl.
  - pose proof (access_hit_logger_indep (cfg c) core w wd line st lg1 lg2) as Hh.
    destruct (access_hit (cfg c) core w wd line st lg1) as [[l1 st1] lg1'].
    destruct (access_hit (cfg c) core w wd line st lg2) as [[l2 st2] lg2'].
    simpl in *. by injection Hh as <- <-.
  - pose proof (access_miss_logger_indep (cfg c) core w addr wd line st lg1 lg2) as Hm.
    destruct (access_miss (cfg c) core w addr wd line st lg1) as [[[l1 st1] lg1']|e1];
      destruct (access_miss (cfg c) core w addr wd line st lg2) as [[[l2 st2] lg2']|e2];
      simpl in *; try done.
    + by injection Hm as <- <-.
    + by injection Hm as ->.
Qed.

Lemma run_line_logger_indep cf ln s1 s2 :
  s1.1 = s2.1 → res_fst (run_line cf ln s1) = res_fst (run_line cf ln s2).
Proof.
  destruct s1 as [[c st] lg1], s2 as [[c2 st2] lg2]. simpl. intros [= <- <-].
  unfold run_line. destruct (_ || _); [done|]. simpl.
  destruct (py_getitem _ 0) as [p0|e]; [simpl|done].
  destruct (py_int p0.2) as [core|e]; [simpl|done].
  destruct (py_getitem _ 1) as [p1|e]; [simpl|done].
  destruct (py_getitem _ 2) as [p2|e]; [simpl|done].
  destruct (py_int0 p2.2) as [addr|e]; [simpl|done].
  pose proof (access_logger_indep c core
    (py_startswith (py_upper p1.2) "W") addr st lg1 lg2) as Ha.
  destruct (access c core _ addr st lg1) as [[[c1' st1'] lg1']|e1];
    destruct (access c core _ addr st lg2) as [[[c2' st2'] lg2']|e2];
    simpl in *; try done.
  by injection Ha as <- <-.
Qed.

Lemma run_lines_logger_indep cf trace s1 s2 :
  s1.1 = s2.1 → res_fst (run_lines cf trace s1) = res_fst (run_lines cf trace s2).
Proof.
  revert s1 s2. induction trace as [|ln rest IH]; intros s1 s2 Hs; simpl.
  - by rewrite Hs.
  - pose proof (run_line_logger_indep cf ln s1 s2 Hs) as Hl.
    destruct (run_line cf ln s1) as [s1'|e1];
      destruct (run_line cf ln s2) as [s2'|e2]; simpl in *; try done.
    apply IH. by injection Hl.
Qed.

Lemma run_counters_logger_indep trace cf lp1 lp2 :
  run_counters trace cf lp1 = run_counters trace cf lp2.
Proof.
  unfold run_counters.
  pose proof (run_lines_logger_indep cf trace (run_init cf lp1) (run_init cf lp2)
                eq_refl) as H.
  destruct (run_lines cf trace (run_init cf lp1)) as [s1|e1];
    destruct (run_lines cf trace (run_init cf lp2)) as [s2|e2];
    simpl in *; try done.
  - injection H as H. by rewrite H.
  - by injection H as ->.
Qed.

(** ** The returned dictionary *)

Section RunTrace.
Context {F : Type}.
Variable float_of_int : Z → F.
Variable float_mul float_div : F → F → F.
Variable int_truediv : Z → Z → F.

Local Abbreviation derive' := (derive float_of_int float_mul float_div int_truediv).

(** Every integer counter is returned as accumulated; a counter that was
    never touched reads 0. *)
Lemma derive_counter (st : gmap string Z) k :
  k ≠ "ipki"%string → k ≠ "ipc_proxy"%string →
  counter (derive' st) k = PInt (stat st k).
Proof.
  intros H1 H2. unfold counter, derive.
  rewrite !lookup_insert_ne by done. rewrite lookup_fmap.
  destruct (decide (k = "stall_cycles"%string)) as [->|Hs].
  { rewrite lookup_insert_eq. simpl. f_equal. unfold stat.
    by rewrite lookup_insert_ne. }
  rewrite lookup_insert_ne by done.
  destruct (decide (k = "invalidations"%string)) as [->|Hi].
  { by rewrite lookup_insert_eq. }
  rewrite lookup_insert_ne by done. unfold stat. by destruct (st !! k).
Qed.

(** C9: the dictionary returned by [run_trace], with all integer counters
    ([suspect_events] and [suspect_lines] among them) and both derived
    metrics, is the same for the same trace and configuration whatever the
    log destination: a path, no path, or two different paths.  A run that
    aborts does so with the same exception.  (Failures of the file system
    when the log is opened or written are outside the model.) *)
Theorem run_trace_logger_indep trace cf lp1 lp2 :
  run_trace float_of_int float_mul float_div int_truediv trace cf lp1
  = run_trace float_of_int float_mul float_div int_truediv trace cf lp2.
Proof.
  unfold run_trace. by rewrite (run_counters_logger_indep trace cf lp1 lp2).
Qed.

(** C8: with mitigation disabled, whatever the trace, the other
    parameters and the log destination, [avoided_invalidations] is 0 in
    the dictionary a completed run returns. *)
Theorem mitigation_off_avoids_nothing trace cf lp d :
  false_sharing_fix cf = false →
  run_trace float_of_int float_mul float_div int_truediv trace cf lp = Ok d →
  counter d "avoided_invalidations" = PInt 0.
Proof.
  intros Hoff H. unfold run_trace in H. inv_bind H. injection H as <-.
  rewrite derive_counter by done. f_equal.
  unfold run_counters in E. inv_bind E. injection E as <-.
  apply run_lines_avoided_off in E0; [|done].
  unfold stat. by rewrite E0.
Qed.
End RunTrace.

Lemma mitigation_off_avoids_nothing_witness :
  ∃ d, run_trace_sym ["0 W 0x0"; "1 W 0x4"; "0 W 0x0"; "1 W 0x4"]
         (Config_2way false) None = Ok d ∧
       counter d "avoided_invalidations" = PInt 0 ∧
       counter d "invalidations" = PInt 3.
Proof.
  unfold run_trace_sym.
  assert (Hok : is_Ok (run_trace FInt FMul FDiv FTrueDiv
                         ["0 W 0x0"; "1 W 0x4"; "0 W 0x0"; "1 W 0x4"]
                         (Config_2way false) None) = true)
    by (vm_compute; reflexivity).
  assert (H3 : (d ← run_trace FInt FMul FDiv FTrueDiv
                      ["0 W 0x0"; "1 W 0x4"; "0 W 0x0"; "1 W 0x4"]
                      (Config_2way false) None;
                Ok (counter d "invalidations")) = Ok (PInt 3))
    by (vm_compute; reflexivity).
  destruct (run_trace FInt FMul FDiv FTrueDiv
              ["0 W 0x0"; "1 W 0x4"; "0 W 0x0"; "1 W 0x4"]
              (Config_2way false) None) as [d|e] eqn:Er; [|discriminate Hok].
  exists d. split; [reflexivity|]. split.
  - exact (mitigation_off_avoids_nothing FInt FMul FDiv FTrueDiv
             ["0 W 0x0"; "1 W 0x4"; "0 W 0x0"; "1 W 0x4"] (Config_2way false)
             None d eq_refl Er).
  - simpl in H3. by injection H3.
Defined.

(** ** The operation token *)

Lemma py_getitem_nth {A} (l : list A) (n : nat) a :
  l !! n = Some a → py_getitem l (Z.of_nat n) = Ok (n, a).
Proof.
  intros H. unfold py_getitem, py_pos.
  pose proof (lookup_lt_Some _ _ _ H).
  rewrite decide_True by lia. rewrite decide_True by lia. simpl.
  rewrite Nat2Z.id. by rewrite H.
Qed.

(** C5 (as amended): the operation token is never validated.  A record that
    is not blank and not a comment, has at least three tokens, an integer
    core and a parsable address is always dispatched to [access]: as a write
    when the upper-cased token starts with W and as a read for every other
    token, R or not; the run goes on with the per-instruction increments. *)
Theorem run_line_any_op cf ln s p0 op p2 rest core addr :
  py_strip ln ≠ ""%string →
  py_startswith ln "#" = false →
  py_split (py_strip ln) = p0 :: op :: p2 :: rest →
  py_int p0 = Ok core →
  py_int0 p2 = Ok addr →
  run_line cf ln s =
    '(c', st', lg') ← access s.1.1 core (py_startswith (py_upper op) "W") addr
                        s.1.2 s.2;
    Ok (c', incr "stall_cycles" (hit_latency cf) (incr "instructions" 1 st'), lg').
Proof.
  intros Hb Hc Hs Hcore Haddr. unfold run_line.
  pose proof (py_getitem_nth (p0 :: op :: p2 :: rest) 0 p0 eq_refl) as G0.
  pose proof (py_getitem_nth (p0 :: op :: p2 :: rest) 1 op eq_refl) as G1.
  pose proof (py_getitem_nth (p0 :: op :: p2 :: rest) 2 p2 eq_refl) as G2.
  change (Z.of_nat 0) with 0 in G0. change (Z.of_nat 1) with 1 in G1.
  change (Z.of_nat 2) with 2 in G2.
  rewrite bool_decide_false by done. rewrite Hc. simpl. rewrite Hs.
  rewrite G0. simpl. rewrite Hcore. simpl. rewrite G1. simpl.
  rewrite G2. simpl. rewrite Haddr. simpl. done.
Qed.

Lemma run_line_any_op_witness :
  run_line Config_default "3 x 0x40" (run_init Config_default None) =
    '(c', st', lg') ← access (Cache_new Config_default) 3 false 64
                        {["instructions" := 0]} (Logger_new None);
    Ok (c', incr "stall_cycles" 4 (incr "instructions" 1 st'), lg').
Proof.
  apply (run_line_any_op Config_default "3 x 0x40" (run_init Config_default None)
           "3" "x" "0x40" [] 3 64); vm_compute; congruence.
Defined.

(** C5 as stated fails: the record [0 X 0x0] is neither rejected nor
    skipped; the run completes and has counted it as one instruction, a
    miss, exactly like [0 R 0x0]. *)
Lemma unrecognized_op_is_processed :
  (d ← run_trace_sym ["0 X 0x0"] Config_default None;
   Ok (counter d "instructions", counter d "misses"))
  = Ok (PInt 1, PInt 1) ∧
  run_trace_sym ["0 X 0x0"] Config_default None
  = run_trace_sym ["0 R 0x0"] Config_default None.
Proof. split; vm_compute; reflexivity. Qed.

(** ** The miss path *)

(** What a miss does, in full: the detector call finds the line that
    [probe] has just reset to Invalid and returns at once, the guard of the
    invalidation charge is false for the same reason, and what remains is
    the installation of the line and the two miss counters. *)
Lemma miss_charges_nothing c core w addr st lg wd c1 r line c' st' lg' :
  _word_idx (cfg c) addr = Ok wd →
  probe c addr = Ok (c1, r, line, false) →
  access c core w addr st lg = Ok (c', st', lg') →
  lg' = lg ∧
  st' = incr "stall_cycles" (miss_latency (cfg c)) (incr "misses" 1 st) ∧
  line_at c' r =
    Some (mkLine (addr `div` line_bytes (cfg c))
            (if w then MODIFIED else EXCLUSIVE) (Some core) {[Some core]}
            core wd (fs_conf line) (fs_suspect line)).
Proof.
  intros Hw Hp H.
  destruct (access_line_at _ _ _ _ _ _ _ _ _ H _ _ _ _ _ Hw Hp) as (line' & Hs & Hat).
  destruct (probe_miss_reset _ _ _ _ _ Hp) as (Hst & Ho & Hsh).
  unfold access_miss in Hs. rewrite (detect_invalid _ _ _ _ _ _ Hst) in Hs.
  rewrite decide_False in Hs by (unfold conflicting_owner; intros [? _]; done).
  inv_bind Hs. destruct a as [idx t].
  apply _index_tag_Ok in E as (_ & _ & -> & _).
  injection Hs as <- <- <-. split; [done|]. split; [done|].
  rewrite Hat. unfold update_history. simpl.
  rewrite bool_decide_true by done. rewrite orb_true_r. done.
Qed.

(** C1, the failing input: under the default configuration set 0 is full
    of lines that core 0 holds Modified; [1 W 0x8000] misses and evicts way
    0, whose occupant has the valid owner 0, different from the requester.
    The line is installed for core 1, but no invalidation is charged:
    [invalidations] stays 0 and [stall_cycles] grows by [miss_latency] only
    (the run loop adds [hit_latency] afterwards). *)
Theorem miss_evicting_remote_owner_not_charged :
  (s ← state_after Config_default trace_fill_set0;
   s' ← access s.1.1 1 true 32768 s.1.2 s.2;
   Ok (line_at s.1.1 (0%nat, 0%nat), line_at s'.1.1 (0%nat, 0%nat),
       stat s.1.2 "invalidations", stat s'.1.2 "invalidations",
       stat s'.1.2 "stall_cycles" - stat s.1.2 "stall_cycles",
       stat s'.1.2 "misses" - stat s.1.2 "misses"))
  = Ok (Some (mkLine 0 MODIFIED (Some 0) {[Some 0]} 0 0 0 false),
        Some (mkLine 512 MODIFIED (Some 1) {[Some 1]} 1 0 0 false),
        0, 0, 40, 1).
Proof. vm_compute. reflexivity. Qed.

(** C2, the failing input: as above, but core 1 writes word 1 of the new
    line ([1 W 0x8004]) while the victim's persisted history records writer
    0 and word 0.  The detector is called and does nothing: [fs_conf] stays
    0, [suspect_events] stays 0 and the log holds its header only. *)
Theorem miss_ignores_persisted_history :
  (s ← run_lines Config_default trace_fill_set0
         (run_init Config_default (Some "suspects.csv"));
   s' ← access s.1.1 1 true 32772 s.1.2 s.2;
   Ok (line_at s.1.1 (0%nat, 0%nat), line_at s'.1.1 (0%nat, 0%nat),
       stat s'.1.2 "suspect_events", rows s'.2))
  = Ok (Some (mkLine 0 MODIFIED (Some 0) {[Some 0]} 0 0 0 false),
        Some (mkLine 512 MODIFIED (Some 1) {[Some 1]} 1 1 0 false),
        0, Some [csv_header]).
Proof. vm_compute. reflexivity. Qed.

(** ** Suppression *)

(** A line that is suspect before the event is still suspect when the
    suppression test runs, and its recorded word is the same. *)
Lemma suspect_before_suppressed cf line core wd st lg :
  false_sharing_fix cf = true → fs_suspect line = true → last_word line ≠ wd →
  suppressed cf (_maybe_detect cf line core wd st lg).1.1 wd = true.
Proof.
  intros Hfix Hsus Hwd.
  assert (Hst : fs_suspect (_maybe_detect cf line core wd st lg).1.1 = true).
  { unfold _maybe_detect. repeat case_decide; simpl; done. }
  destruct (_maybe_detect cf line core wd st lg) as [[l1 st1] lg1] eqn:Ed.
  apply detect_frame in Ed as (_ & _ & _ & _ & _ & Hlw & _). simpl in *.
  unfold suppressed. rewrite Hfix, Hst, Hlw. simpl.
  by rewrite bool_decide_true.
Qed.

(** C4 (as amended): on a hit with a coherence conflict (a write to a line
    another core owns, a read of a line another core holds Modified) for
    which the suppression test succeeds, no invalidation is charged
    ([invalidations] and [stall_cycles] are left as they were by [access]),
    and [avoided_invalidations] grows by the count that would have been
    charged: the number of sharers other than the requester on a write, 1 on
    a read.  No sharer is evicted.  On a write the sharers set is left
    exactly as it was; on a read the requester is added to it. *)
Theorem suppressed_hit c core (w : bool) addr st lg wd c1 r line c' st' lg' :
  _word_idx (cfg c) addr = Ok wd →
  probe c addr = Ok (c1, r, line, true) →
  (if w then remote_holder line core else remote_modified line core) →
  suppressed (cfg c) (_maybe_detect (cfg c) line core wd st lg).1.1 wd = true →
  access c core w addr st lg = Ok (c', st', lg') →
  ∃ line',
    line_at c' r = Some line' ∧
    stat st' "invalidations" = stat st "invalidations" ∧
    stat st' "stall_cycles" = stat st "stall_cycles" ∧
    stat st' "avoided_invalidations" =
      stat st "avoided_invalidations" +
      (if w then Z.of_nat (size (sharers line ∖ {[Some core]})) else 1) ∧
    sharers line' = (if w then sharers line else {[Some core]} ∪ sharers line) ∧
    sharers line ⊆ sharers line'.
Proof.
  intros Hw Hp Hconf Hsup H.
  destruct (access_line_at _ _ _ _ _ _ _ _ _ H _ _ _ _ _ Hw Hp) as (line' & Hs & Hat).
  exists (update_history core w wd line'). split; [done|].
  destruct (update_history_frame core w wd line') as (_ & _ & _ & ->).
  injection Hs as Hs. unfold access_hit in Hs.
  destruct (_maybe_detect (cfg c) line core wd st lg) as [[l1 st1] lg1] eqn:Ed.
  apply detect_frame in Ed as (_ & _ & _ & Hsh & _ & _ & Hf).
  assert (∀ k, k ≠ "suspect_lines"%string → k ≠ "suspect_events"%string →
               stat st1 k = stat st k) as Hf'.
  { intros k ? ?. unfold stat. by rewrite Hf. }
  simpl in Hsup. rewrite Hsup in Hs. simpl in Hs.
  destruct w.
  - rewrite decide_True in Hs by done. injection Hs as <- <- <-. simpl.
    simpl_stat. rewrite !Hf' by done. rewrite Hsh. done.
  - rewrite decide_True in Hs by done. injection Hs as <- <- <-. simpl.
    simpl_stat. rewrite !Hf' by done. rewrite Hsh.
    repeat split; try done. apply union_subseteq_r.
Qed.

Lemma suppressed_hit_witness :
  ∃ c' st' lg' line',
    access cache_suspect 1 true 4 ∅ (Logger_new None) = Ok (c', st', lg') ∧
    line_at c' (0%nat, 0%nat) = Some line' ∧
    stat st' "invalidations" = 0 ∧
    stat st' "avoided_invalidations" = 0 ∧
    sharers line' = {[Some 1]}.
Proof.
  assert (Hok : is_Ok (access cache_suspect 1 true 4 ∅ (Logger_new None)) = true)
    by (vm_compute; reflexivity).
  destruct (access cache_suspect 1 true 4 ∅ (Logger_new None))
    as [[[c' st'] lg']|e] eqn:Ea; [|discriminate Hok].
  destruct (suppressed_hit cache_suspect 1 true 4 ∅ (Logger_new None) 1
              cache_suspect (0%nat, 0%nat)
              (mkLine 0 MODIFIED (Some 0) {[Some 1]} 0 0 2 true) c' st' lg')
    as (line' & Hat & Hinv & _ & Hav & Hsh & _).
  - vm_compute; reflexivity.
  - vm_compute; reflexivity.
  - apply (bool_decide_unpack _). vm_compute. exact I.
  - vm_compute; reflexivity.
  - exact Ea.
  - exists c', st', lg', line'. split; [reflexivity|]. split; [exact Hat|].
    split; [exact Hinv|]. split; [exact Hav | exact Hsh].
Defined.

(** C4 as stated fails on a suppressed read hit.  After [trace_ping_pong]
    with mitigation enabled the line is Modified by core 0, already suspect,
    recorded word 0, sharers {1}.  Core 2 reads word 2: the event is
    suppressed ([avoided_invalidations] grows by 1 and [invalidations] stays)
    and core 2 has been added to the sharers. *)
Lemma suppressed_read_adds_sharer :
  (s ← state_after Config_fix trace_ping_pong;
   s' ← access s.1.1 2 false 8 s.1.2 s.2;
   Ok (line_at s.1.1 (0%nat, 0%nat),
       sharers <$> line_at s'.1.1 (0%nat, 0%nat),
       stat s'.1.2 "avoided_invalidations" - stat s.1.2 "avoided_invalidations",
       stat s'.1.2 "invalidations" - stat s.1.2 "invalidations"))
  = Ok (Some (mkLine 0 MODIFIED (Some 0) {[Some 1]} 0 0 2 true),
        Some {[Some 1; Some 2]}, 1, 0).
Proof. vm_compute. reflexivity. Qed.

(** ** Invariants of the line matrix *)

(** An access maintains a property of lines that holds of a reset victim,
    survives a hit on a valid line and holds of a freshly installed line. *)
Lemma access_all_lines (P : CacheLine → Prop) c core w addr st lg c' st' lg' :
  (∀ t l, P (evict t l)) →
  (∀ wd line, P line → state line ≠ INVALID →
     P (update_history core w wd (access_hit (cfg c) core w wd line st lg).1.1)) →
  (∀ wd line line' st1 lg1,
     access_miss (cfg c) core w addr wd line st lg = Ok (line', st1, lg1) →
     P (update_history core w wd line')) →
  all_lines P c →
  access c core w addr st lg = Ok (c', st', lg') →
  all_lines P c'.
Proof.
  intros Hev Hhit Hmiss Hc H.
  apply access_Ok in H as (wd & c1 & r & line & hit & line' & _ & Hp & Hs & ->).
  destruct (probe_all_lines P _ _ _ _ _ _ Hev Hc Hp) as [Hc1 Hline].
  apply store_all_lines; [done|]. destruct hit.
  - injection Hs as Hs.
    apply probe_hit in Hp as (_ & _ & _ & _ & _ & _ & [_ Hst] & _).
    specialize (Hhit wd line Hline Hst). by rewrite Hs in Hhit.
  - by eapply Hmiss.
Qed.

Lemma update_history_line_ok core w wd l :
  line_ok l → line_ok (update_history core w wd l).
Proof.
  unfold line_ok.
  destruct (update_history_frame core w wd l) as (_ & -> & -> & ->). done.
Qed.

Lemma update_history_line_owned core w wd l :
  line_owned l → line_owned (update_history core w wd l).
Proof.
  unfold line_owned.
  destruct (update_history_frame core w wd l) as (_ & -> & -> & ->). done.
Qed.

Lemma access_hit_line_ok cf core w wd line st lg :
  line_ok line → state line ≠ INVALID →
  line_ok (access_hit cf core w wd line st lg).1.1.
Proof.
  intros Hok Hst. destruct (Hok Hst) as [Hown Hne]. unfold access_hit.
  destruct (_maybe_detect cf line core wd st lg) as [[l1 st1] lg1] eqn:Ed.
  apply detect_frame in Ed as (_ & Hs1 & Ho1 & Hsh1 & _).
  unfold line_ok.
  destruct w; repeat case_decide; try destruct (negb _); simpl;
    rewrite ?Ho1, ?Hsh1; intros _; (split; [eauto | set_solver]).
Qed.

Lemma access_miss_line_ok cf core w addr wd line st lg line' st' lg' :
  access_miss cf core w addr wd line st lg = Ok (line', st', lg') →
  line_ok line'.
Proof.
  intros H. apply access_miss_installed in H as (_ & _ & Ho & Hsh).
  unfold line_ok. rewrite Ho, Hsh. intros _. split; [eauto | set_solver].
Qed.

Lemma access_line_ok c core w addr st lg c' st' lg' :
  all_lines line_ok c →
  access c core w addr st lg = Ok (c', st', lg') →
  all_lines line_ok c'.
Proof.
  apply access_all_lines.
  - intros t l Hst. done.
  - intros wd line Hok Hst. apply update_history_line_ok.
    by apply access_hit_line_ok.
  - intros wd line line' st1 lg1 Hm. apply update_history_line_ok.
    by eapply access_miss_line_ok.
Qed.

(** Without mitigation the owner of a valid line stays among its sharers. *)
Lemma access_hit_line_owned cf core w wd line st lg :
  false_sharing_fix cf = false →
  line_owned line → state line ≠ INVALID →
  line_owned (access_hit cf core w wd line st lg).1.1.
Proof.
  intros Hoff Hok Hst. destruct (Hok Hst) as [Hown Hin]. unfold access_hit.
  destruct (_maybe_detect cf line core wd st lg) as [[l1 st1] lg1] eqn:Ed.
  apply detect_frame in Ed as (_ & Hs1 & Ho1 & Hsh1 & _).
  rewrite (suppressed_off _ _ _ Hoff). unfold line_owned. simpl.
  destruct w; repeat case_decide; simpl; rewrite ?Ho1, ?Hsh1; intros _;
    try (split; [eauto | set_solver]).
  split; [eauto|].
  assert (owner line = Some core) as <-; [|done].
  destruct (decide (owner line = Some core)) as [|Hne]; [done|].
  exfalso. match goal with H : ¬ remote_holder _ _ |- _ => apply H end.
  split; [|done]. destruct (state line); naive_solver.
Qed.

Lemma access_miss_line_owned cf core w addr wd line st lg line' st' lg' :
  access_miss cf core w addr wd line st lg = Ok (line', st', lg') →
  line_owned line'.
Proof.
  intros H. apply access_miss_installed in H as (_ & _ & Ho & Hsh).
  unfold line_owned. rewrite Ho, Hsh. intros _. split; [eauto | set_solver].
Qed.

Lemma access_line_owned c core w addr st lg c' st' lg' :
  false_sharing_fix (cfg c) = false →
  all_lines line_owned c →
  access c core w addr st lg = Ok (c', st', lg') →
  all_lines line_owned c'.
Proof.
  intros Hoff. apply access_all_lines.
  - intros t l Hst. done.
  - intros wd line Hok Hst. apply update_history_line_owned.
    by apply access_hit_line_owned.
  - intros wd line line' st1 lg1 Hm. apply update_history_line_owned.
    by eapply access_miss_line_owned.
Qed.

Lemma Cache_new_all_lines (P : CacheLine → Prop) cf :
  P CacheLine_new → all_lines P (Cache_new cf).
Proof.
  intros HP. unfold all_lines, Cache_new. simpl.
  apply Forall_replicate. by apply Forall_replicate.
Qed.

Lemma reachable_cfg cf c : reachable cf c → cfg c = cf.
Proof.
  induction 1 as [|c core w addr st lg c' st' lg' _ IH Ha]; [done|].
  by rewrite (access_cfg _ _ _ _ _ _ _ _ _ Ha).
Qed.

Lemma reachable_line_ok cf c : reachable cf c → all_lines line_ok c.
Proof.
  induction 1 as [|c core w addr st lg c' st' lg' _ IH Ha].
  - apply Cache_new_all_lines. intros Hst. done.
  - by eapply access_line_ok.
Qed.

Lemma reachable_line_owned cf c :
  false_sharing_fix cf = false → reachable cf c → all_lines line_owned c.
Proof.
  intros Hoff. induction 1 as [|c core w addr st lg c' st' lg' Hr IH Ha].
  - apply Cache_new_all_lines. intros Hst. done.
  - eapply access_line_owned; [|done|done].
    by rewrite (reachable_cfg _ _ Hr).
Qed.

Lemma all_lines_at (P : CacheLine → Prop) c r l :
  all_lines P c → line_at c r = Some l → P l.
Proof.
  unfold all_lines, line_at. intros Hc H.
  destruct (lines c !! r.1) as [ways|] eqn:Ew; [|done]. simpl in H.
  eapply Forall_lookup_1; [|exact H]. by eapply Forall_lookup_1.
Qed.

(** ** Modified lines *)

(** What a write hit leaves in the accessed line. *)
Lemma write_hit_line cf core wd line st lg :
  let l1 := (_maybe_detect cf line core wd st lg).1.1 in
  let line' := (access_hit cf core true wd line st lg).1.1 in
  state line' = MODIFIED ∧ owner line' = Some core ∧
  (remote_holder line core → suppressed cf l1 wd = false →
   sharers line' = {[Some core]}) ∧
  (remote_holder line core → suppressed cf l1 wd = true →
   sharers line' = sharers line).
Proof.
  unfold access_hit.
  destruct (_maybe_detect cf line core wd st lg) as [[l1 st1] lg1] eqn:Ed.
  apply detect_frame in Ed as (_ & _ & _ & Hsh & _). simpl.
  case_decide; [|done].
  destruct (suppressed cf l1 wd); simpl; rewrite ?Hsh; done.
Qed.

(** C6 (as amended): at every point of a run every Modified line (indeed
    every valid line) has exactly one owner and a non-empty sharers set.  A
    write leaves the accessed line Modified and owned by the requester; when
    the write misses, or hits a line another core owns and charges the
    invalidation, the sharers set is {requester}, that is {owner}; when that
    write hit is suppressed the sharers set keeps its pre-event value, which
    need not be {owner}. *)
Theorem modified_lines cf c :
  reachable cf c →
  (∀ r l, line_at c r = Some l → state l = MODIFIED →
          is_Some (owner l) ∧ sharers l ≠ ∅) ∧
  ∀ core addr st lg c' st' lg' wd c1 r line hit,
    access c core true addr st lg = Ok (c', st', lg') →
    _word_idx (cfg c) addr = Ok wd →
    probe c addr = Ok (c1, r, line, hit) →
    let l1 := (_maybe_detect (cfg c) line core wd st lg).1.1 in
    ∃ line',
      line_at c' r = Some line' ∧
      state line' = MODIFIED ∧ owner line' = Some core ∧
      (hit = false ∨ (remote_holder line core ∧ suppressed (cfg c) l1 wd = false) →
       sharers line' = {[Some core]}) ∧
      (hit = true → remote_holder line core → suppressed (cfg c) l1 wd = true →
       sharers line' = sharers line).
Proof.
  intros Hr. split.
  { intros r l Hat Hm. eapply (all_lines_at line_ok); [|exact Hat|congruence].
    by eapply reachable_line_ok. }
  intros core addr st lg c' st' lg' wd c1 r line hit H Hw Hp l1.
  destruct hit.
  - destruct (access_line_at _ _ _ _ _ _ _ _ _ H _ _ _ _ _ Hw Hp)
      as (line' & Hs & Hat).
    injection Hs as Hs.
    destruct (write_hit_line (cfg c) core wd line st lg) as (Hst & Ho & Hch & Hsup).
    rewrite Hs in Hst, Ho, Hch, Hsup. simpl in *.
    exists (update_history core true wd line'). split; [done|].
    destruct (update_history_frame core true wd line') as (_ & -> & -> & ->).
    split; [done|]. split; [done|]. split.
    + intros [?|[? ?]]; [done|]. by apply Hch.
    + intros _. exact Hsup.
  - destruct (miss_charges_nothing _ _ _ _ _ _ _ _ _ _ _ _ _ Hw Hp H)
      as (_ & _ & Hat).
    eexists. split; [exact Hat|]. simpl. split; [done|]. split; [done|].
    split; [done|]. intros ?. done.
Qed.

Lemma modified_lines_witness :
  ∃ c' st' lg' line',
    access (Cache_new (Config_2way true)) 1 true 4 ∅ (Logger_new None)
      = Ok (c', st', lg') ∧
    line_at c' (0%nat, 0%nat) = Some line' ∧
    state line' = MODIFIED ∧ owner line' = Some 1 ∧ sharers line' = {[Some 1]}.
Proof.
  assert (Hok : is_Ok (access (Cache_new (Config_2way true)) 1 true 4 ∅
                         (Logger_new None)) = true) by (vm_compute; reflexivity).
  destruct (access (Cache_new (Config_2way true)) 1 true 4 ∅ (Logger_new None))
    as [[[c' st'] lg']|e] eqn:Ea; [|discriminate Hok].
  destruct (modified_lines _ _ (reachable_new (Config_2way true))) as [_ Hstep].
  destruct (Hstep 1 4 ∅ (Logger_new None) c' st' lg' 1
              (store (mkCache (Config_2way true)
                        (lines (Cache_new (Config_2way true))) [1])
                 (0%nat, 0%nat) (evict 0 CacheLine_new))
              (0%nat, 0%nat) (evict 0 CacheLine_new) false Ea)
    as (line' & Hat & Hst & Ho & Hsh & _);
    [vm_compute; reflexivity | vm_compute; reflexivity |].
  exists c', st', lg', line'. split; [reflexivity|]. split; [exact Hat|].
  split; [exact Hst|]. split; [exact Ho|]. apply Hsh. by left.
Defined.

Example cache_suspect_reached :
  (s ← state_after (Config_2way true) trace_ping_pong; Ok s.1.1) = Ok cache_suspect.
Proof. vm_compute. reflexivity. Qed.

(** C6 as stated fails on a suppressed write.  After [trace_ping_pong] with
    mitigation enabled, the third access (core 0 writes, suppressed) has left
    the line Modified with owner 0 while the sharers set is still {1}. *)
Lemma suppressed_write_keeps_stale_sharers :
  (s ← state_after Config_fix trace_ping_pong; Ok (line_at s.1.1 (0%nat, 0%nat)))
  = Ok (Some (mkLine 0 MODIFIED (Some 0) {[Some 1]} 0 0 2 true)) ∧
  ({[Some 1]} : gset (option Z)) ≠ {[Some 0]}.
Proof.
  split; [vm_compute; reflexivity|].
  intros H. assert (Some 1 ∈ ({[Some 0]} : gset (option Z))) as Hin.
  { rewrite <- H. by apply elem_of_singleton. }
  apply elem_of_singleton in Hin. discriminate.
Qed.

(** ** The two invalidation counters *)

Lemma elem_of_size_pos (X : gset (option Z)) x : x ∈ X → (0 < size X)%nat.
Proof.
  intros Hx. destruct (size X) eqn:E; [|lia].
  apply size_empty_inv in E. set_solver.
Qed.

(** C7 (as amended): on every hit on which the detector is invoked (a
    write to a line another core owns, a read of a line another core holds
    Modified) exactly one of [invalidations] and [avoided_invalidations] is
    updated, never both: the first when the event is not suppressed, the
    second when it is.  The amount is 1 on a read and the number of sharers
    other than the requester on a write; it is positive whenever mitigation
    is disabled. *)
Theorem detector_hit_counts cf c core (w : bool) addr st lg wd c1 r line c' st' lg' :
  reachable cf c →
  _word_idx (cfg c) addr = Ok wd →
  probe c addr = Ok (c1, r, line, true) →
  (if w then remote_holder line core else remote_modified line core) →
  access c core w addr st lg = Ok (c', st', lg') →
  let n := if w then Z.of_nat (size (sharers line ∖ {[Some core]})) else 1 in
  let l1 := (_maybe_detect (cfg c) line core wd st lg).1.1 in
  (if suppressed (cfg c) l1 wd
   then stat st' "avoided_invalidations" = stat st "avoided_invalidations" + n ∧
        stat st' "invalidations" = stat st "invalidations"
   else stat st' "invalidations" = stat st "invalidations" + n ∧
        stat st' "avoided_invalidations" = stat st "avoided_invalidations") ∧
  (false_sharing_fix cf = false → 0 < n).
Proof.
  intros Hr Hw Hp Hconf H n l1. split.
  - destruct (access_line_at _ _ _ _ _ _ _ _ _ H _ _ _ _ _ Hw Hp)
      as (line' & Hs & _).
    injection Hs as Hs. unfold access_hit in Hs. subst n l1.
    destruct (_maybe_detect (cfg c) line core wd st lg) as [[l1 st1] lg1] eqn:Ed.
    apply detect_frame in Ed as (_ & _ & _ & Hsh & _ & _ & Hf).
    assert (∀ k, k ≠ "suspect_lines"%string → k ≠ "suspect_events"%string →
                 stat st1 k = stat st k) as Hf'.
    { intros k ? ?. unfold stat. by rewrite Hf. }
    simpl. destruct w; rewrite decide_True in Hs by done;
      destruct (suppressed (cfg c) l1 wd); simpl in Hs;
      injection Hs as <- <- <-; simpl_stat; rewrite !Hf' by done;
      rewrite ?Hsh; done.
  - intros Hoff. subst n. destruct w; [|lia].
    apply probe_hit in Hp as (idx & t & ways & _ & Hg & Hl & _ & _).
    assert (line_owned line) as Hown.
    { eapply (all_lines_at line_owned c r); [by eapply reachable_line_owned|].
      unfold line_at. rewrite (py_getitem_Ok _ _ _ _ Hg). done. }
    destruct Hconf as [Hst Hne].
    destruct Hown as [_ Hin]. { destruct Hst as [->|[->| ->]]; done. }
    assert (0 < size (sharers line ∖ {[Some core]}))%nat; [|lia].
    apply (elem_of_size_pos _ (owner line)).
    apply elem_of_difference. split; [done|].
    intros Heq%elem_of_singleton. done.
Qed.

Lemma detector_hit_counts_witness :
  ∃ c' st' lg',
    access cache_owned0 1 true 4 ∅ (Logger_new None) = Ok (c', st', lg') ∧
    stat st' "invalidations" = 1 ∧ stat st' "avoided_invalidations" = 0.
Proof.
  assert (Hr : reachable (Config_2way false) cache_owned0).
  { eapply (reachable_access _ (Cache_new (Config_2way false)) 0 true 0 ∅
              (Logger_new None)); [constructor | vm_compute; reflexivity]. }
  assert (Hok : is_Ok (access cache_owned0 1 true 4 ∅ (Logger_new None)) = true)
    by (vm_compute; reflexivity).
  destruct (access cache_owned0 1 true 4 ∅ (Logger_new None))
    as [[[c' st'] lg']|e] eqn:Ea; [|discriminate Hok].
  destruct (detector_hit_counts (Config_2way false) cache_owned0 1 true 4 ∅
              (Logger_new None) 1 cache_owned0 (0%nat, 0%nat)
              (mkLine 0 MODIFIED (Some 0) {[Some 0]} 0 0 0 false) c' st' lg' Hr)
    as [Hcnt _].
  - vm_compute; reflexivity.
  - vm_compute; reflexivity.
  - apply (bool_decide_unpack _). vm_compute. exact I.
  - exact Ea.
  - rewrite suppressed_off in Hcnt by reflexivity. destruct Hcnt as [Hinv Hav].
    exists c', st', lg'. split; [reflexivity|]. split.
    + rewrite Hinv. vm_compute. reflexivity.
    + rewrite Hav. vm_compute. reflexivity.
Defined.

(** C7 as stated fails.  After [trace_ping_pong] with mitigation enabled
    the line is owned by core 0 and its only sharer is core 1.  The write
    [1 W 0x4] hits, finds a remote owner and invokes the detector, which
    fires ([suspect_events] grows by 1); the event is suppressed and the
    count added to [avoided_invalidations] is the number of sharers other
    than core 1, which is 0: neither counter grows. *)
Lemma detector_event_changes_neither_counter :
  (s ← state_after Config_fix trace_ping_pong;
   p ← probe s.1.1 4;
   s' ← access s.1.1 1 true 4 s.1.2 s.2;
   Ok (p.2, bool_decide (remote_holder p.1.2 1),
       stat s'.1.2 "suspect_events" - stat s.1.2 "suspect_events",
       stat s'.1.2 "invalidations" - stat s.1.2 "invalidations",
       stat s'.1.2 "avoided_invalidations" - stat s.1.2 "avoided_invalidations"))
  = Ok (true, true, 1, 0, 0).
Proof. vm_compute. reflexivity. Qed.

(** * Further properties of the simulator *)

(** ** Geometry and completion of an access *)

Lemma py_getitem_range {A} (l : list A) i :
  0 ≤ i < Z.of_nat (length l) →
  ∃ a, l !! Z.to_nat i = Some a ∧ py_getitem l i = Ok (Z.to_nat i, a).
Proof.
  intros Hi. destruct (lookup_lt_is_Some_2 l (Z.to_nat i)) as [a Ha]; [lia|].
  exists a. split; [done|]. unfold py_getitem, py_pos.
  rewrite decide_True by lia. rewrite decide_True by lia. simpl. by rewrite Ha.
Qed.

Lemma py_getitem_nonempty {A} (l : list A) i n a :
  py_getitem l i = Ok (n, a) → (0 < length l)%nat.
Proof.
  intros H. apply py_getitem_Ok in H. apply lookup_lt_Some in H. lia.
Qed.

Lemma store_shaped c r l : shaped c → shaped (store c r l).
Proof.
  unfold shaped. rewrite store_cfg, store_repl_idx, store_length.
  intros (H1 & H2 & H3 & H4). repeat split; try done.
  unfold store. destruct (lines c !! r.1) as [ways|] eqn:Ew; [|done]. simpl.
  apply Forall_insert; [done|]. rewrite length_insert.
  by eapply (Forall_lookup_1 _ _ _ _ H2).
Qed.

Lemma Cache_new_shaped cf : shaped (Cache_new cf).
Proof.
  unfold shaped, Cache_new. simpl. rewrite !length_replicate.
  repeat split; try done.
  - apply Forall_replicate. by rewrite length_replicate.
  - apply Forall_replicate. lia.
Qed.

Lemma probe_shaped c addr c' r line hit :
  shaped c → probe c addr = Ok (c', r, line, hit) → shaped c'.
Proof.
  intros Hc Hp. destruct hit.
  - apply probe_hit in Hp as (? & ? & ? & _ & _ & _ & _ & ->). done.
  - apply probe_miss in Hp
      as (idx & t & ways & ci & cur & repl & _ & Hg & _ & Hgc & Hgw & Ha & _ & ->).
    apply store_shaped. destruct Hc as (H1 & H2 & H3 & H4).
    unfold shaped. simpl. rewrite length_insert. repeat split; try done.
    apply Forall_insert; [done|].
    pose proof (py_getitem_nonempty _ _ _ _ Hgw) as Hne.
    apply py_getitem_Ok in Hg.
    rewrite (Forall_lookup_1 _ _ _ _ H2 Hg) in Hne.
    assert (0 < assoc (cfg c)) as Hpos by lia.
    pose proof (Z.mod_pos_bound (cur + 1) (assoc (cfg c)) Hpos). lia.
Qed.

Lemma access_shaped c core w addr st lg c' st' lg' :
  shaped c → access c core w addr st lg = Ok (c', st', lg') → shaped c'.
Proof.
  intros Hc H.
  apply access_Ok in H as (wd & c1 & r & line & hit & line' & _ & Hp & _ & ->).
  apply store_shaped. by eapply probe_shaped.
Qed.

Lemma reachable_shaped cf c : reachable cf c → shaped c.
Proof.
  induction 1 as [|c core w addr st lg c' st' lg' _ IH Ha].
  - apply Cache_new_shaped.
  - by eapply access_shaped.
Qed.

Lemma access_completes c core w addr st lg :
  shaped c → usable (cfg c) → is_Ok (access c core w addr st lg) = true.
Proof.
  intros (H1 & H2 & H3 & H4) (Hlb & Hsets & Hassoc & Hwb & Hwpl).
  unfold access, _word_idx, py_floordiv, py_mod.
  rewrite !decide_False by done. simpl. rewrite decide_False by done. simpl.
  assert (Hit : _index_tag (cfg c) addr
                = Ok ((addr `div` line_bytes (cfg c)) `mod` sets (cfg c),
                      addr `div` line_bytes (cfg c))).
  { apply _index_tag_Ok. repeat split; try done. lia. }
  pose proof (Z.mod_pos_bound (addr `div` line_bytes (cfg c)) (sets (cfg c)) Hsets)
    as Hidx.
  set (idx := (addr `div` line_bytes (cfg c)) `mod` sets (cfg c)) in *.
  destruct (py_getitem_range (lines c) idx) as (ways & Hways & Hg); [lia|].
  destruct (py_getitem_range (repl_idx c) idx) as (cur & Hcur & Hgc); [lia|].
  pose proof (Forall_lookup_1 _ _ _ _ H2 Hways) as Hlen. simpl in Hlen.
  pose proof (Forall_lookup_1 _ _ _ _ H4 Hcur) as Hrange. simpl in Hrange.
  destruct (py_getitem_range ways cur) as (repl & Hrepl & Hgw); [lia|].
  unfold probe. rewrite Hit. simpl. rewrite Hg. simpl.
  destruct (list_find _ ways) as [[wi l]|]; simpl.
  - by destruct (access_hit _ _ _ _ _ _ _) as [[? ?] ?].
  - rewrite Hgc. simpl. rewrite Hgw. simpl.
    unfold py_mod. rewrite decide_False by lia. simpl.
    unfold access_miss.
    destruct (_maybe_detect _ _ _ _ _ _) as [[? ?] ?]. rewrite Hit. done.
Qed.

Lemma access_needs_usable c core w addr st lg c' st' lg' :
  shaped c → access c core w addr st lg = Ok (c', st', lg') → usable (cfg c).
Proof.
  intros (H1 & H2 & H3 & H4) H.
  apply access_Ok in H as (wd & c1 & r & line & hit & line' & Hw & Hp & _ & _).
  unfold _word_idx in Hw. inv_bind Hw. inv_bind Hw.
  apply py_floordiv_Ok in E as [Hwb _]. apply py_floordiv_Ok in E0 as [_ ->].
  apply py_mod_Ok in Hw as [Hwpl _].
  assert (∃ idx t ways n x, _index_tag (cfg c) addr = Ok (idx, t) ∧
            py_getitem (lines c) idx = Ok (r.1, ways) ∧ ways !! n = Some x)
    as (idx & t & ways & n & x & Hi & Hg & Hx).
  { destruct hit.
    - apply probe_hit in Hp as (idx & t & ways & ? & ? & ? & _). eauto 10.
    - apply probe_miss in Hp as (idx & t & ways & ? & ? & ? & ? & ? & _ & _ & Hgw & _).
      apply py_getitem_Ok in Hgw. eauto 10. }
  apply _index_tag_Ok in Hi as (Hlb & Hsets & _).
  pose proof (py_getitem_nonempty _ _ _ _ Hg) as Hrows.
  apply py_getitem_Ok in Hg. pose proof (Forall_lookup_1 _ _ _ _ H2 Hg) as Hlen.
  simpl in Hlen. apply lookup_lt_Some in Hx. unfold usable. repeat split; try done; lia.
Qed.

(** X1: on every cache a run can reach, an access completes (raises no
    exception) exactly when the configuration is usable: [line_bytes] and
    [word_bytes] are not zero, [line_bytes // word_bytes] is not zero, and
    there is at least one set and one way. *)
Theorem access_completes_iff cf c core w addr st lg :
  reachable cf c →
  is_Ok (access c core w addr st lg) = true ↔ usable cf.
Proof.
  intros Hr. pose proof (reachable_shaped _ _ Hr) as Hs.
  rewrite <- (reachable_cfg _ _ Hr). split.
  - destruct (access c core w addr st lg) as [[[c' st'] lg']|e] eqn:Ea; [|done].
    intros _. by eapply access_needs_usable.
  - by apply access_completes.
Qed.

Lemma access_completes_iff_witness :
  is_Ok (access (Cache_new Config_default) 3 false (-100) ∅ (Logger_new None)) = true.
Proof.
  apply (access_completes_iff Config_default (Cache_new Config_default) 3 false
           (-100) ∅ (Logger_new None) (reachable_new Config_default)).
  unfold usable. simpl. repeat split; try lia.
  intros H. vm_compute in H. discriminate.
Defined.

(** X2: when the word size is zero or exceeds a positive line size (as
    with [--word-bytes 128] and the default 64-byte lines), every access
    raises [ZeroDivisionError], whatever the cache holds. *)
Theorem word_size_division_error c core w addr st lg :
  word_bytes (cfg c) = 0 ∨ 0 < line_bytes (cfg c) < word_bytes (cfg c) →
  access c core w addr st lg = Raise ZeroDivisionError.
Proof.
  intros H. unfold access, _word_idx, py_floordiv, py_mod.
  destruct (decide (word_bytes (cfg c) = 0)) as [|Hwb]; [done|]. simpl.
  destruct H as [?|H]; [done|].
  rewrite Z.div_small by lia. by rewrite decide_True.
Qed.

Lemma word_size_division_error_witness :
  access (Cache_new (mkConfig 64 64 8 128 2 false 4 40 10)) 0 true 0 ∅
    (Logger_new None) = Raise ZeroDivisionError.
Proof.
  apply (word_size_division_error (Cache_new (mkConfig 64 64 8 128 2 false 4 40 10))).
  right. simpl. lia.
Defined.

(** ** What one access touches *)

Lemma line_at_store_ne c r r' l :
  r ≠ r' → line_at (store c r l) r' = line_at c r'.
Proof.
  intros Hne. unfold line_at, store.
  destruct (lines c !! r.1) as [ways|] eqn:Ew; [|done]. simpl.
  destruct (decide (r.1 = r'.1)) as [Heq|Hrow].
  - rewrite <- Heq. rewrite list_lookup_insert_eq by (by eapply lookup_lt_Some).
    rewrite Ew. simpl. apply list_lookup_insert_ne.
    intros H2. apply Hne. destruct r, r'. simpl in *. congruence.
  - by rewrite list_lookup_insert_ne.
Qed.

(** The line [probe] returns is the line stored at the returned position,
    reset when the probe missed. *)
Lemma probe_old_line c addr c1 r line hit :
  probe c addr = Ok (c1, r, line, hit) →
  ∃ old, line_at c r = Some old ∧
         (if hit then line = old else ∃ t, line = evict t old) ∧
         ∀ r', r' ≠ r → line_at c1 r' = line_at c r'.
Proof.
  destruct hit; intros H.
  - apply probe_hit in H as (idx & t & ways & _ & Hg & Hl & _ & ->).
    apply py_getitem_Ok in Hg. exists line. unfold line_at. rewrite Hg. done.
  - apply probe_miss in H
      as (idx & t & ways & ci & cur & repl & _ & Hg & _ & _ & Hgw & _ & -> & ->).
    apply py_getitem_Ok in Hg, Hgw. exists repl. unfold line_at at 1.
    rewrite Hg. split; [done|]. split; [eauto|].
    intros r' Hne. by rewrite line_at_store_ne.
Qed.

(** The detector fields after a hit are those the detector call left, or
    the old ones when the detector was not called. *)
Lemma access_hit_detector_cases cf core w wd line st lg :
  let l' := (access_hit cf core w wd line st lg).1.1 in
  let l1 := (_maybe_detect cf line core wd st lg).1.1 in
  (fs_conf l' = fs_conf line ∧ fs_suspect l' = fs_suspect line) ∨
  (fs_conf l' = fs_conf l1 ∧ fs_suspect l' = fs_suspect l1).
Proof.
  unfold access_hit.
  destruct (_maybe_detect cf line core wd st lg) as [[l1 st1] lg1] eqn:Ed.
  destruct w; repeat case_decide; try destruct (negb _); simpl;
    try (left; done); right; done.
Qed.

Lemma access_miss_detector_fields cf core w addr wd line st lg line' st' lg' :
  access_miss cf core w addr wd line st lg = Ok (line', st', lg') →
  fs_conf line' = fs_conf (_maybe_detect cf line core wd st lg).1.1 ∧
  fs_suspect line' = fs_suspect (_maybe_detect cf line core wd st lg).1.1.
Proof.
  unfold access_miss.
  destruct (_maybe_detect cf line core wd st lg) as [[l1 st1] lg1] eqn:Ed.
  intros H. inv_bind H. destruct a as [idx t]. by injection H as <- <- <-.
Qed.

Lemma update_history_detector_fields core w wd l :
  fs_conf (update_history core w wd l) = fs_conf l ∧
  fs_suspect (update_history core w wd l) = fs_suspect l.
Proof. unfold update_history. by destruct (_ || _). Qed.

Lemma detect_conf_range cf line core wd st lg :
  0 ≤ fs_conf line ≤ 3 →
  0 ≤ fs_conf (_maybe_detect cf line core wd st lg).1.1 ≤ 3.
Proof. unfold _maybe_detect. intros H. repeat case_decide; simpl; lia. Qed.

Lemma detect_suspect_sticky cf line core wd st lg :
  fs_suspect line = true →
  fs_suspect (_maybe_detect cf line core wd st lg).1.1 = true.
Proof. unfold _maybe_detect. intros H. repeat case_decide; simpl; done. Qed.

(** The general form of [access_all_lines]: the property of the victim may
    be used when it is reset. *)
Lemma access_all_lines_pres (P : CacheLine → Prop) c core w addr st lg c' st' lg' :
  (∀ t l, P l → P (evict t l)) →
  (∀ wd line, P line → state line ≠ INVALID →
     P (update_history core w wd (access_hit (cfg c) core w wd line st lg).1.1)) →
  (∀ wd line line' st1 lg1, P line →
     access_miss (cfg c) core w addr wd line st lg = Ok (line', st1, lg1) →
     P (update_history core w wd line')) →
  all_lines P c →
  access c core w addr st lg = Ok (c', st', lg') →
  all_lines P c'.
Proof.
  intros Hev Hhit Hmiss Hc H.
  apply access_Ok in H as (wd & c1 & r & line & hit & line' & _ & Hp & Hs & ->).
  assert (all_lines P c1 ∧ P line) as [Hc1 Hline].
  { destruct hit.
    - pose proof Hp as Hp'.
      apply probe_hit in Hp' as (? & ? & ways & _ & Hg & Hw & _ & ->).
      apply py_getitem_Ok in Hg. split; [done|].
      eapply Forall_lookup_1; [|exact Hw]. by eapply Forall_lookup_1.
    - pose proof Hp as Hp'.
      apply probe_miss in Hp'
        as (? & ? & ways & ? & ? & repl & _ & Hg & _ & _ & Hgw & _ & -> & ->).
      apply py_getitem_Ok in Hg, Hgw.
      assert (P repl) as Hrepl.
      { eapply Forall_lookup_1; [|exact Hgw]. by eapply Forall_lookup_1. }
      split; [|by apply Hev]. apply store_all_lines; [done|]. by apply Hev. }
  apply store_all_lines; [done|]. destruct hit.
  - injection Hs as Hs.
    apply probe_hit in Hp as (? & ? & ? & _ & _ & _ & [_ Hst] & _).
    specialize (Hhit wd line Hline Hst). by rewrite Hs in Hhit.
  - by eapply Hmiss.
Qed.

Lemma access_conf_range c core w addr st lg c' st' lg' :
  all_lines (λ l, 0 ≤ fs_conf l ≤ 3) c →
  access c core w addr st lg = Ok (c', st', lg') →
  all_lines (λ l, 0 ≤ fs_conf l ≤ 3) c'.
Proof.
  apply access_all_lines_pres.
  - intros t l H. done.
  - intros wd line H _.
    destruct (update_history_detector_fields core w wd
                (access_hit (cfg c) core w wd line st lg).1.1) as [-> _].
    pose proof (detect_conf_range (cfg c) line core wd st lg H).
    destruct (access_hit_detector_cases (cfg c) core w wd line st lg)
      as [[-> _]|[-> _]]; done.
  - intros wd line line' st1 lg1 H Hm.
    destruct (update_history_detector_fields core w wd line') as [-> _].
    apply access_miss_detector_fields in Hm as [-> _].
    by apply detect_conf_range.
Qed.

(** X3: at every point of a run the confidence counter of every line is
    between 0 and 3. *)
Theorem fs_conf_range cf c r l :
  reachable cf c → line_at c r = Some l → 0 ≤ fs_conf l ≤ 3.
Proof.
  intros Hr. apply (all_lines_at (λ l, 0 ≤ fs_conf l ≤ 3)). clear r l.
  induction Hr as [|c core w addr st lg c' st' lg' _ IH Ha].
  - apply Cache_new_all_lines. simpl. lia.
  - by eapply access_conf_range.
Qed.

Lemma cache_owned0_reachable : reachable (Config_2way false) cache_owned0.
Proof.
  eapply (reachable_access _ (Cache_new (Config_2way false)) 0 true 0 ∅
            (Logger_new None)); [constructor | vm_compute; reflexivity].
Qed.

Lemma fs_conf_range_witness :
  ∃ l, line_at cache_owned0 (0%nat, 0%nat) = Some l ∧ 0 ≤ fs_conf l ≤ 3.
Proof.
  eexists. split; [reflexivity|].
  apply (fs_conf_range (Config_2way false) cache_owned0 (0%nat, 0%nat)
           _ cache_owned0_reachable eq_refl).
Defined.

(** X4: the suspect latch of a slot never reverts.  A slot whose line is
    marked suspect before an access holds a line marked suspect after it,
    whether the access touches another slot, hits this one, or evicts its
    line and installs another. *)
Theorem suspect_is_sticky c core w addr st lg c' st' lg' r l :
  access c core w addr st lg = Ok (c', st', lg') →
  line_at c r = Some l → fs_suspect l = true →
  ∃ l', line_at c' r = Some l' ∧ fs_suspect l' = true.
Proof.
  intros H Hat Hsus.
  apply access_Ok in H as (wd & c1 & r0 & line & hit & line' & Hw & Hp & Hs & ->).
  destruct (probe_old_line _ _ _ _ _ _ Hp) as (old & Hold & Hline & Hframe).
  destruct (decide (r0 = r)) as [->|Hne].
  - exists (update_history core w wd line'). split.
    { apply store_line_at. rewrite (probe_line_at _ _ _ _ _ _ Hp). eauto. }
    destruct (update_history_detector_fields core w wd line') as [_ ->].
    rewrite Hat in Hold. injection Hold as <-.
    assert (fs_suspect line = true) as Hl.
    { destruct hit; [by subst|]. destruct Hline as [t ->]. done. }
    destruct hit.
    + injection Hs as Hs.
      pose proof (detect_suspect_sticky (cfg c) line core wd st lg Hl) as Hd.
      destruct (access_hit_detector_cases (cfg c) core w wd line st lg)
        as [[_ He]|[_ He]]; rewrite Hs in He; simpl in He; congruence.
    + apply access_miss_detector_fields in Hs as [_ ->].
      by apply detect_suspect_sticky.
  - exists l. split; [|done].
    rewrite line_at_store_ne by done. rewrite Hframe by done. done.
Qed.

Lemma suspect_is_sticky_witness :
  ∃ c' st' lg' l',
    access cache_suspect 5 false 64 ∅ (Logger_new None) = Ok (c', st', lg') ∧
    line_at c' (0%nat, 0%nat) = Some l' ∧ fs_suspect l' = true.
Proof.
  assert (Hok : is_Ok (access cache_suspect 5 false 64 ∅ (Logger_new None)) = true)
    by (vm_compute; reflexivity).
  destruct (access cache_suspect 5 false 64 ∅ (Logger_new None))
    as [[[c' st'] lg']|e] eqn:Ea; [|discriminate Hok].
  destruct (suspect_is_sticky cache_suspect 5 false 64 ∅ (Logger_new None)
              c' st' lg' (0%nat, 0%nat)
              (mkLine 0 MODIFIED (Some 0) {[Some 1]} 0 0 2 true) Ea)
    as (l' & Hat & Hsus); [reflexivity | reflexivity |].
  exists c', st', lg', l'. split; [reflexivity|]. split; [exact Hat | exact Hsus].
Defined.

(** X5: an access changes at most one slot of the line matrix, the one the
    probe returns; every other line, in the same set or another, is left
    as it was, and the matrix keeps its number of sets.  On a hit no
    replacement cursor moves; on a miss at most one does. *)
Theorem access_frame c core w addr st lg c' st' lg' :
  access c core w addr st lg = Ok (c', st', lg') →
  ∃ c1 r line hit,
    probe c addr = Ok (c1, r, line, hit) ∧
    (∀ r', r' ≠ r → line_at c' r' = line_at c r') ∧
    length (lines c') = length (lines c) ∧
    (hit = true → repl_idx c' = repl_idx c) ∧
    ∃ ci, ∀ j, j ≠ ci → repl_idx c' !! j = repl_idx c !! j.
Proof.
  intros H.
  apply access_Ok in H as (wd & c1 & r & line & hit & line' & Hw & Hp & Hs & ->).
  exists c1, r, line, hit. split; [done|].
  destruct (probe_old_line _ _ _ _ _ _ Hp) as (old & Hold & Hline & Hframe).
  split. { intros r' Hne. rewrite line_at_store_ne by done. by apply Hframe. }
  split. { rewrite store_length. by eapply probe_length. }
  rewrite store_repl_idx. destruct hit.
  - apply probe_hit in Hp as (? & ? & ? & _ & _ & _ & _ & ->).
    split; [done|]. by exists 0%nat.
  - apply probe_miss in Hp
      as (idx & t & ways & ci & cur & repl & _ & _ & _ & _ & _ & _ & _ & ->).
    split; [done|]. exists ci. intros j Hj. rewrite store_repl_idx. simpl.
    by apply list_lookup_insert_ne.
Qed.

Lemma access_frame_witness :
  ∃ c' st' lg',
    access cache_owned0 1 true 64 ∅ (Logger_new None) = Ok (c', st', lg') ∧
    line_at c' (0%nat, 0%nat) = line_at cache_owned0 (0%nat, 0%nat).
Proof.
  assert (Hok : is_Ok (access cache_owned0 1 true 64 ∅ (Logger_new None)) = true)
    by (vm_compute; reflexivity).
  assert (Hp : probe cache_owned0 64
               = Ok (store (mkCache (Config_2way false) (lines cache_owned0) [0])
                       (0%nat, 1%nat) (evict 1 CacheLine_new),
                     (0%nat, 1%nat), evict 1 CacheLine_new, false))
    by (vm_compute; reflexivity).
  destruct (access cache_owned0 1 true 64 ∅ (Logger_new None))
    as [[[c' st'] lg']|e] eqn:Ea; [|discriminate Hok].
  destruct (access_frame cache_owned0 1 true 64 ∅ (Logger_new None) c' st' lg' Ea)
    as (c1 & r & line & hit & Hp' & Hframe & _).
  rewrite Hp in Hp'. injection Hp' as <- <- <- <-.
  exists c', st', lg'. split; [reflexivity|]. apply Hframe. discriminate.
Defined.

(** ** The state machine of a hit *)

(** X6: a hit keeps the tag.  A write hit leaves the line Modified and
    owned by the requester.  A read hit never changes the owner and leaves
    the line Shared, except that a line Modified by the reader itself stays
    Modified; in particular an Exclusive line becomes Shared on the first
    read hit, even when the reader is its owner. *)
Theorem hit_transitions c core (w : bool) addr st lg wd c1 r line c' st' lg' :
  _word_idx (cfg c) addr = Ok wd →
  probe c addr = Ok (c1, r, line, true) →
  access c core w addr st lg = Ok (c', st', lg') →
  ∃ l',
    line_at c' r = Some l' ∧ tag l' = tag line ∧
    state l' =
      (if w then MODIFIED
       else if decide (state line = MODIFIED ∧ owner line = Some core)
            then MODIFIED else SHARED) ∧
    owner l' = (if w then Some core else owner line).
Proof.
  intros Hw Hp H.
  destruct (access_line_at _ _ _ _ _ _ _ _ _ H _ _ _ _ _ Hw Hp) as (line' & Hs & Hat).
  exists (update_history core w wd line'). split; [done|].
  destruct (update_history_frame core w wd line') as (-> & -> & -> & _).
  injection Hs as Hs.
  apply probe_hit in Hp as (_ & _ & _ & _ & _ & _ & [_ Hst] & _).
  unfold access_hit in Hs.
  destruct (_maybe_detect (cfg c) line core wd st lg) as [[l1 st1] lg1] eqn:Ed.
  apply detect_frame in Ed as (Ht & Hs1 & Ho1 & _).
  destruct w.
  - destruct (decide (remote_holder line core));
      [destruct (negb (suppressed (cfg c) l1 wd))|]; simpl in Hs;
      injection Hs as <- <- <-; simpl; rewrite ?Ht; done.
  - destruct (decide (remote_modified line core)) as [[Hm Ho]|Hn].
    + rewrite decide_False by (intros [_ ?]; done).
      destruct (negb (suppressed (cfg c) l1 wd)); simpl in Hs;
        injection Hs as <- <- <-; simpl; rewrite ?Ht, ?Ho1; done.
    + simpl in Hs. injection Hs as <- <- <-. unfold remote_modified in Hn.
      destruct (state line) eqn:Est; simpl; try done.
      rewrite Est. destruct (decide (owner line = Some core)) as [Ho|Ho].
      * rewrite decide_True by done. done.
      * exfalso. by apply Hn.
Qed.

Lemma hit_transitions_witness :
  ∃ c' st' lg' l',
    access cache_owned0 0 false 8 ∅ (Logger_new None) = Ok (c', st', lg') ∧
    line_at c' (0%nat, 0%nat) = Some l' ∧ state l' = MODIFIED ∧ owner l' = Some 0.
Proof.
  assert (Hok : is_Ok (access cache_owned0 0 false 8 ∅ (Logger_new None)) = true)
    by (vm_compute; reflexivity).
  destruct (access cache_owned0 0 false 8 ∅ (Logger_new None))
    as [[[c' st'] lg']|e] eqn:Ea; [|discriminate Hok].
  destruct (hit_transitions cache_owned0 0 false 8 ∅ (Logger_new None) 2
              cache_owned0 (0%nat, 0%nat)
              (mkLine 0 MODIFIED (Some 0) {[Some 0]} 0 0 0 false) c' st' lg')
    as (l' & Hat & _ & Hst & Ho);
    [vm_compute; reflexivity | vm_compute; reflexivity | exact Ea |].
  exists c', st', lg', l'. split; [reflexivity|]. split; [exact Hat|].
  split; [exact Hst | exact Ho].
Defined.

(** ** The counters of a run *)

(** The keys [access] can write. *)
Lemma access_untouched c core w addr st lg c' st' lg' (k : string) :
  access c core w addr st lg = Ok (c', st', lg') →
  k ≠ "hits"%string → k ≠ "misses"%string → k ≠ "invalidations"%string →
  k ≠ "avoided_invalidations"%string → k ≠ "stall_cycles"%string →
  k ≠ "suspect_lines"%string → k ≠ "suspect_events"%string →
  st' !! k = st !! k.
Proof.
  intros H ? ? ? ? ? ? ?.
  apply access_Ok in H as (wd & c1 & r & line & hit & line' & _ & _ & Hs & _).
  destruct hit.
  - injection Hs as Hs. unfold access_hit in Hs.
    destruct (_maybe_detect (cfg c) line core wd st lg) as [[l1 st1] lg1] eqn:Ed.
    apply detect_frame in Ed as (_ & _ & _ & _ & _ & _ & Hf).
    destruct w; repeat case_decide; try destruct (negb _); simpl in Hs;
      injection Hs as <- <- <-; simpl_stat; rewrite ?Hf by done; done.
  - unfold access_miss in Hs.
    destruct (_maybe_detect (cfg c) line core wd st lg) as [[l1 st1] lg1] eqn:Ed.
    apply detect_frame in Ed as (_ & _ & _ & _ & _ & _ & Hf).
    inv_bind Hs. destruct a as [idx t]. injection Hs as <- <- <-.
    repeat case_decide; try destruct (negb _); simpl_stat;
      rewrite ?Hf by done; done.
Qed.

(** Every access is counted once, as a hit or as a miss. *)
Lemma access_hit_or_miss c core w addr st lg c' st' lg' :
  access c core w addr st lg = Ok (c', st', lg') →
  stat st' "hits" + stat st' "misses" = stat st "hits" + stat st "misses" + 1.
Proof.
  intros H.
  pose proof H as H'.
  apply access_Ok in H' as (wd & c1 & r & line & hit & line' & Hw & Hp & Hs & _).
  destruct hit.
  - injection Hs as Hs.
    destruct (access_hit_counts (cfg c) core w wd line st lg) as [Hh Hm].
    rewrite Hs in Hh, Hm. simpl in *. lia.
  - destruct (miss_charges_nothing _ _ _ _ _ _ _ _ _ _ _ _ _ Hw Hp H)
      as (_ & -> & _).
    simpl_stat. lia.
Qed.

Lemma run_lines_app cf t1 t2 s :
  run_lines cf (t1 ++ t2) s = s1 ← run_lines cf t1 s; run_lines cf t2 s1.
Proof.
  revert s. induction t1 as [|ln t1 IH]; intros s; simpl; [done|].
  destruct (run_line cf ln s) as [s1|e]; simpl; [apply IH | done].
Qed.

Lemma run_line_skipped cf ln s : skipped ln = true → run_line cf ln s = Ok s.
Proof. unfold skipped, run_line. by intros ->. Qed.

Lemma run_line_record cf ln s s' :
  skipped ln = false → run_line cf ln s = Ok s' →
  ∃ core w addr c' st' lg',
    access s.1.1 core w addr s.1.2 s.2 = Ok (c', st', lg') ∧
    s' = (c', incr "stall_cycles" (hit_latency cf) (incr "instructions" 1 st'), lg').
Proof.
  unfold skipped, run_line. intros ->.
  destruct (py_getitem _ 0) as [p0|e]; [simpl|done].
  destruct (py_int p0.2) as [core|e]; [simpl|done].
  destruct (py_getitem _ 1) as [p1|e]; [simpl|done].
  destruct (py_getitem _ 2) as [p2|e]; [simpl|done].
  destruct (py_int0 p2.2) as [addr|e]; [simpl|done].
  destruct (access _ core _ addr _ _) as [[[c' st'] lg']|e] eqn:Ea; [simpl|done].
  intros [= <-]. eauto 10.
Qed.

(** Along the trace loop every record is one instruction and one hit or
    miss; skipped lines count for nothing. *)
Lemma run_lines_counts cf trace s s' :
  run_lines cf trace s = Ok s' →
  stat s'.1.2 "instructions" =
    stat s.1.2 "instructions"
    + Z.of_nat (length (filter (λ ln, skipped ln = false) trace)) ∧
  stat s'.1.2 "hits" + stat s'.1.2 "misses" - stat s'.1.2 "instructions" =
    stat s.1.2 "hits" + stat s.1.2 "misses" - stat s.1.2 "instructions".
Proof.
  revert s. induction trace as [|ln rest IH]; intros s H; simpl in H.
  - injection H as <-. simpl. lia.
  - inv_bind H. destruct (IH _ H) as [IH1 IH2]. clear IH.
    rewrite filter_cons. destruct (skipped ln) eqn:Esk.
    + rewrite run_line_skipped in E by done. injection E as <-.
      rewrite decide_False by done. lia.
    + apply run_line_record in E
        as (core & w & addr & c' & st' & lg' & Ha & ->); [|done].
      rewrite decide_True by done. simpl in *.
      pose proof (access_hit_or_miss _ _ _ _ _ _ _ _ _ Ha) as Hhm.
      assert (stat st' "instructions" = stat s.1.2 "instructions") as Hi.
      { unfold stat. by rewrite (access_untouched _ _ _ _ _ _ _ _ _ _ Ha). }
      revert IH1 IH2. simpl_stat. lia.
Qed.

Section RunCounters.
Context {F : Type}.
Variable float_of_int : Z → F.
Variable float_mul float_div : F → F → F.
Variable int_truediv : Z → Z → F.

(** X7: in the dictionary of a completed run [instructions] is the number
    of trace lines that are neither blank nor comments, and
    [hits + misses = instructions]. *)
Theorem hits_plus_misses trace cf lp d :
  run_trace float_of_int float_mul float_div int_truediv trace cf lp = Ok d →
  ∃ h m,
    counter d "hits" = PInt h ∧ counter d "misses" = PInt m ∧
    counter d "instructions" = PInt (h + m) ∧
    h + m = Z.of_nat (length (filter (λ ln, skipped ln = false) trace)).
Proof.
  intros H. unfold run_trace in H. inv_bind H. injection H as <-.
  unfold run_counters in E. inv_bind E. injection E as <-.
  apply run_lines_counts in E0 as [Hi Hhm]. simpl in Hi, Hhm.
  change (stat {["instructions" := 0]} "instructions") with 0 in *.
  change (stat {["instructions" := 0]} "hits") with 0 in *.
  change (stat {["instructions" := 0]} "misses") with 0 in *.
  exists (stat a0.1.2 "hits"), (stat a0.1.2 "misses").
  rewrite !derive_counter by done.
  repeat split; try done; [f_equal|]; lia.
Qed.
End RunCounters.

Lemma hits_plus_misses_witness :
  ∃ d h m,
    run_trace FInt FMul FDiv FTrueDiv ["# two records"; "0 W 0x0"; ""; "1 R 0x4"]
      (Config_2way false) None = Ok d ∧
    counter d "hits" = PInt h ∧ counter d "misses" = PInt m ∧
    counter d "instructions" = PInt (h + m) ∧ h + m = 2.
Proof.
  assert (Hok : is_Ok (run_trace FInt FMul FDiv FTrueDiv
                         ["# two records"; "0 W 0x0"; ""; "1 R 0x4"]
                         (Config_2way false) None) = true)
    by (vm_compute; reflexivity).
  destruct (run_trace FInt FMul FDiv FTrueDiv
              ["# two records"; "0 W 0x0"; ""; "1 R 0x4"]
              (Config_2way false) None) as [d|e] eqn:Er; [|discriminate Hok].
  destruct (hits_plus_misses FInt FMul FDiv FTrueDiv _ _ _ d Er)
    as (h & m & Hh & Hm & Hi & Hn).
  exists d, h, m. split; [reflexivity|]. split; [exact Hh|]. split; [exact Hm|].
  split; [exact Hi | exact Hn].
Defined.

(** ** The event log *)

Lemma log_consistent_frame st st' lg :
  st' !! "suspect_events" = st !! "suspect_events" →
  log_consistent st lg → log_consistent st' lg.
Proof.
  unfold log_consistent, stat. intros ->. done.
Qed.

Lemma log_suspect_consistent st st' lg core line wd :
  stat st' "suspect_events" = stat st "suspect_events" + 1 →
  log_consistent st lg → log_consistent st' (log_suspect lg core line wd).
Proof.
  unfold log_consistent, log_suspect. intros Hst.
  destruct (rows lg) as [rs|] eqn:Er; [|by rewrite Er]. simpl.
  intros (Hh & Hlen & Hid & Hrows). split.
  { rewrite lookup_app_l; [done|]. by eapply lookup_lt_Some. }
  split. { rewrite length_app. simpl. lia. }
  split. { lia. }
  intros k row Hk.
  destruct (decide (S k < length rs)%nat) as [Hlt|Hge].
  - rewrite lookup_app_l in Hk by done. by apply Hrows.
  - rewrite lookup_app_r in Hk by lia.
    destruct (S k - length rs)%nat as [|n] eqn:En; simpl in Hk; [|done].
    injection Hk as <-. simpl. split; [|done]. do 2 f_equal. lia.
Qed.

Lemma log_suspect_rows lg core line wd :
  is_Some (rows (log_suspect lg core line wd)) ↔ is_Some (rows lg).
Proof.
  unfold log_suspect. destruct (rows lg) eqn:Er; simpl; [|by rewrite Er].
  split; eauto.
Qed.

Lemma detect_log cf line core wd st lg :
  log_consistent st lg →
  log_consistent (_maybe_detect cf line core wd st lg).1.2
                 (_maybe_detect cf line core wd st lg).2 ∧
  (is_Some (rows (_maybe_detect cf line core wd st lg).2) ↔ is_Some (rows lg)).
Proof.
  intros H. unfold _maybe_detect.
  repeat case_decide; simpl; try done.
  - split; [|apply log_suspect_rows].
    apply (log_suspect_consistent st); [|done]. by simpl_stat.
  - split; [|apply log_suspect_rows].
    apply (log_suspect_consistent st); [|done]. by simpl_stat.
Qed.

(** The logger and the detector counter after an access are those the
    detector call left, or the old ones when it was not called. *)
Lemma access_log c core w addr st lg c' st' lg' :
  access c core w addr st lg = Ok (c', st', lg') →
  log_consistent st lg →
  log_consistent st' lg' ∧ (is_Some (rows lg') ↔ is_Some (rows lg)).
Proof.
  intros H Hc.
  apply access_Ok in H as (wd & c1 & r & line & hit & line' & _ & _ & Hs & _).
  destruct (detect_log (cfg c) line core wd st lg Hc) as [Hd Hr].
  destruct hit.
  - injection Hs as Hs. unfold access_hit in Hs.
    destruct (_maybe_detect (cfg c) line core wd st lg) as [[l1 st1] lg1] eqn:Ed.
    simpl in Hd, Hr.
    destruct w; repeat case_decide; try destruct (negb _); simpl in Hs;
      injection Hs as <- <- <-;
      (split; [|done]);
      (eapply log_consistent_frame; [|eassumption]); by simpl_stat.
  - unfold access_miss in Hs.
    destruct (_maybe_detect (cfg c) line core wd st lg) as [[l1 st1] lg1] eqn:Ed.
    simpl in Hd, Hr. inv_bind Hs. destruct a as [idx t].
    injection Hs as <- <- <-. split; [|done].
    eapply log_consistent_frame; [|exact Hd].
    repeat case_decide; try destruct (negb _); by simpl_stat.
Qed.

Lemma run_line_log cf ln s s' :
  run_line cf ln s = Ok s' →
  log_consistent s.1.2 s.2 →
  log_consistent s'.1.2 s'.2 ∧ (is_Some (rows s'.2) ↔ is_Some (rows s.2)).
Proof.
  intros H Hc.
  apply run_line_Ok in H as [->|(core & w & addr & c' & st' & lg' & Ha & ->)];
    [done|]. simpl.
  destruct (access_log _ _ _ _ _ _ _ _ _ Ha Hc) as [Hc' Hr]. split; [|done].
  eapply log_consistent_frame; [|exact Hc']. by simpl_stat.
Qed.

Lemma run_lines_log cf trace s s' :
  run_lines cf trace s = Ok s' →
  log_consistent s.1.2 s.2 →
  log_consistent s'.1.2 s'.2 ∧ (is_Some (rows s'.2) ↔ is_Some (rows s.2)).
Proof.
  revert s. induction trace as [|ln rest IH]; intros s H Hc; simpl in H.
  - by injection H as <-.
  - inv_bind H. destruct (run_line_log _ _ _ _ E Hc) as [Hc1 Hr1].
    destruct (IH _ H Hc1) as [Hc2 Hr2]. split; [done|]. by rewrite Hr2.
Qed.

(** X8: at the end of the trace loop the log agrees with the summary.
    With a destination (a non-empty path) the log holds the header followed
    by exactly [suspect_events] rows of eight fields, whose [event_id]s are
    1, 2, ... in order.  Without one (no path, or the empty path) nothing is
    ever recorded. *)
Theorem log_matches_suspect_events cf trace lp c st lg :
  run_lines cf trace (run_init cf lp) = Ok (c, st, lg) →
  match rows lg with
  | Some rs =>
      (∃ p, lp = Some p ∧ p ≠ ""%string) ∧
      rs !! 0%nat = Some csv_header ∧
      Z.of_nat (length rs) = 1 + stat st "suspect_events" ∧
      ∀ k row, rs !! S k = Some row →
               row !! 0%nat = Some (CInt (Z.of_nat (S k))) ∧ length row = 8%nat
  | None => lp = None ∨ lp = Some ""%string
  end.
Proof.
  intros H. apply run_lines_log in H as [Hc Hr]; simpl in *.
  - unfold log_consistent in Hc. destruct (rows lg) as [rs|] eqn:Er.
    + destruct Hc as (Hh & Hlen & Hid & Hrows).
      split; [|split; [done|split; [lia|done]]].
      assert (is_Some (rows (Logger_new lp))) as Hs by (apply Hr; eauto).
      unfold Logger_new in Hs. destruct lp as [p|]; [|by destruct Hs].
      destruct (decide (p = ""%string)); [by destruct Hs|eauto].
    + unfold Logger_new in Hr. destruct lp as [p|]; [|by left].
      destruct (decide (p = ""%string)) as [->|]; [by right|].
      simpl in Hr. destruct Hr as [_ Hr]. destruct Hr as [? ?]; [eauto|done].
  - unfold log_consistent, Logger_new. destruct lp as [p|]; [|done].
    destruct (decide (p = ""%string)); [done|]. simpl.
    repeat split; done.
Qed.

Lemma log_matches_suspect_events_witness :
  ∃ c st lg rs,
    run_lines Config_fix ["0 W 0x0"; "1 W 0x4"; "0 W 0x0"]
      (run_init Config_fix (Some "suspects.csv")) = Ok (c, st, lg) ∧
    rows lg = Some rs ∧ Z.of_nat (length rs) = 1 + stat st "suspect_events".
Proof.
  assert (Hok : (s ← run_lines Config_fix ["0 W 0x0"; "1 W 0x4"; "0 W 0x0"]
                       (run_init Config_fix (Some "suspects.csv"));
                 Ok (has_rows s.2)) = Ok true).
  { vm_compute. reflexivity. }
  destruct (run_lines Config_fix ["0 W 0x0"; "1 W 0x4"; "0 W 0x0"]
              (run_init Config_fix (Some "suspects.csv")))
    as [[[c st] lg]|e] eqn:Er; [|discriminate Hok].
  pose proof (log_matches_suspect_events _ _ _ _ _ _ Er) as H.
  simpl in Hok. unfold has_rows in Hok. simpl in Hok.
  destruct (rows lg) as [rs|] eqn:Erows; [|discriminate Hok].
  destruct H as (_ & _ & Hlen & _).
  exists c, st, lg, rs. split; [reflexivity|]. split; [exact Erows | exact Hlen].
Defined.

(** ** Suspect lines *)

Lemma sumZ_insert {A} (f : A → Z) (l : list A) i a b :
  l !! i = Some a → sumZ f (<[i := b]> l) = sumZ f l - f a + f b.
Proof.
  revert i. induction l as [|x l IH]; intros [|i] H; simpl in *; try done.
  - injection H as ->. lia.
  - rewrite (IH i H). lia.
Qed.

Lemma sumZ_bound {A} (f : A → Z) (l : list A) m :
  Forall (λ x, 0 ≤ f x ≤ m) l → 0 ≤ sumZ f l ≤ Z.of_nat (length l) * m.
Proof.
  induction 1 as [|x l Hx _ IH]; simpl; [lia|]. nia.
Qed.

Lemma sumZ_replicate_zero {A} (f : A → Z) n x :
  f x = 0 → sumZ f (replicate n x) = 0.
Proof. intros H. induction n as [|n IH]; simpl; [done|]. lia. Qed.

Lemma suspect_slots_store c r old new :
  line_at c r = Some old →
  suspect_slots (store c r new) = suspect_slots c - suspect_bit old + suspect_bit new.
Proof.
  unfold line_at, suspect_slots, store. intros H.
  destruct (lines c !! r.1) as [ways|] eqn:Ew; [|done]. simpl in *.
  rewrite (sumZ_insert _ _ _ _ _ Ew). rewrite (sumZ_insert _ _ _ _ _ H). lia.
Qed.

Lemma suspect_slots_probe c addr c1 r line hit :
  probe c addr = Ok (c1, r, line, hit) → suspect_slots c1 = suspect_slots c.
Proof.
  destruct hit; intros H.
  - apply probe_hit in H as (? & ? & ? & _ & _ & _ & _ & ->). done.
  - apply probe_miss in H
      as (idx & t & ways & ci & cur & repl & _ & Hg & _ & _ & Hgw & _ & -> & ->).
    apply py_getitem_Ok in Hg, Hgw.
    rewrite (suspect_slots_store _ _ repl).
    + unfold suspect_slots, suspect_bit. simpl. lia.
    + unfold line_at. simpl. by rewrite Hg.
Qed.

(** The detector counts a line when, and only when, it sets its latch. *)
Lemma detect_suspect_delta cf line core wd st lg :
  stat (_maybe_detect cf line core wd st lg).1.2 "suspect_lines"
  - stat st "suspect_lines"
  = suspect_bit (_maybe_detect cf line core wd st lg).1.1 - suspect_bit line.
Proof.
  unfold _maybe_detect, suspect_bit.
  repeat case_decide; simpl; simpl_stat; try lia.
  destruct_and!. simpl in *.
  match goal with H : fs_suspect _ = false |- _ => rewrite H end. lia.
Qed.

Lemma access_hit_suspect_delta cf core w wd line st lg :
  stat (access_hit cf core w wd line st lg).1.2 "suspect_lines"
  - stat st "suspect_lines"
  = suspect_bit (access_hit cf core w wd line st lg).1.1 - suspect_bit line.
Proof.
  pose proof (detect_suspect_delta cf line core wd st lg) as Hd.
  unfold access_hit.
  destruct (_maybe_detect cf line core wd st lg) as [[l1 st1] lg1] eqn:Ed.
  simpl in Hd.
  destruct w; repeat case_decide; try destruct (negb _); simpl; simpl_stat;
    unfold suspect_bit in *; simpl; lia.
Qed.

Lemma access_miss_suspect_delta cf core w addr wd line st lg line' st' lg' :
  access_miss cf core w addr wd line st lg = Ok (line', st', lg') →
  stat st' "suspect_lines" - stat st "suspect_lines"
  = suspect_bit line' - suspect_bit line.
Proof.
  pose proof (detect_suspect_delta cf line core wd st lg) as Hd.
  unfold access_miss.
  destruct (_maybe_detect cf line core wd st lg) as [[l1 st1] lg1] eqn:Ed.
  simpl in Hd. intros H. inv_bind H. destruct a as [idx t].
  injection H as <- <- <-.
  repeat case_decide; try destruct (negb _); simpl_stat;
    unfold suspect_bit in *; simpl; lia.
Qed.

Lemma access_suspect_delta c core w addr st lg c' st' lg' :
  access c core w addr st lg = Ok (c', st', lg') →
  stat st' "suspect_lines" - stat st "suspect_lines"
  = suspect_slots c' - suspect_slots c.
Proof.
  intros H.
  apply access_Ok in H as (wd & c1 & r & line & hit & line' & _ & Hp & Hs & ->).
  rewrite (suspect_slots_store _ _ line) by (by eapply probe_line_at).
  rewrite (suspect_slots_probe _ _ _ _ _ _ Hp).
  assert (suspect_bit (update_history core w wd line') = suspect_bit line') as ->.
  { unfold suspect_bit.
    by destruct (update_history_detector_fields core w wd line') as [_ ->]. }
  destruct hit.
  - injection Hs as Hs.
    pose proof (access_hit_suspect_delta (cfg c) core w wd line st lg) as Hd.
    rewrite Hs in Hd. simpl in Hd. lia.
  - apply access_miss_suspect_delta in Hs. lia.
Qed.

Lemma suspect_slots_bound c :
  shaped c →
  0 ≤ suspect_slots c
    ≤ Z.of_nat (Z.to_nat (sets (cfg c))) * Z.of_nat (Z.to_nat (assoc (cfg c))).
Proof.
  intros (H1 & H2 & _). unfold suspect_slots. rewrite <- H1.
  apply sumZ_bound. eapply Forall_impl; [exact H2|].
  intros ways Hlen. simpl in *.
  pose proof (sumZ_bound suspect_bit ways 1) as Hb. rewrite Hlen in Hb.
  assert (Forall (λ x, 0 ≤ suspect_bit x ≤ 1) ways) as Hall.
  { apply Forall_forall. intros x _. unfold suspect_bit.
    destruct (fs_suspect x); lia. }
  specialize (Hb Hall). lia.
Qed.

Lemma run_lines_suspect cf trace s s' :
  run_lines cf trace s = Ok s' →
  shaped s.1.1 →
  shaped s'.1.1 ∧ cfg s'.1.1 = cfg s.1.1 ∧
  stat s'.1.2 "suspect_lines" - stat s.1.2 "suspect_lines"
  = suspect_slots s'.1.1 - suspect_slots s.1.1.
Proof.
  revert s. induction trace as [|ln rest IH]; intros s H Hsh; simpl in H.
  - injection H as <-. split; [done|]. split; [done|]. lia.
  - inv_bind H.
    assert (shaped a.1.1 ∧ cfg a.1.1 = cfg s.1.1 ∧
            stat a.1.2 "suspect_lines" - stat s.1.2 "suspect_lines"
            = suspect_slots a.1.1 - suspect_slots s.1.1) as (Hsa & Hca & Hda).
    { apply run_line_Ok in E
        as [->|(core & w & addr & c' & st' & lg' & Ha & ->)].
      - split; [done|]. split; [done|]. lia.
      - simpl. split; [by eapply access_shaped|].
        split; [by eapply access_cfg|].
        simpl_stat. by eapply access_suspect_delta. }
    destruct (IH _ H Hsa) as (Hs' & Hc' & Hd').
    split; [done|]. split; [congruence|]. lia.
Qed.

(** X9: [suspect_lines] counts slots of the line matrix, not memory
    lines.  At the end of the trace loop it equals the number of slots whose
    suspect latch is set, so it never exceeds [sets * assoc] however many
    different lines the trace makes suspect. *)
Theorem suspect_lines_counts_slots cf trace lp c st lg :
  run_lines cf trace (run_init cf lp) = Ok (c, st, lg) →
  stat st "suspect_lines" = suspect_slots c ∧
  0 ≤ stat st "suspect_lines" ≤ Z.max 0 (sets cf) * Z.max 0 (assoc cf).
Proof.
  intros H.
  apply run_lines_suspect in H as (Hsh & Hcf & Hd); [|apply Cache_new_shaped].
  simpl in *.
  change (stat {["instructions" := 0]} "suspect_lines") with 0 in Hd.
  assert (suspect_slots (Cache_new cf) = 0) as Hz.
  { unfold suspect_slots, Cache_new. simpl.
    apply sumZ_replicate_zero. by apply sumZ_replicate_zero. }
  split; [lia|].
  pose proof (suspect_slots_bound _ Hsh) as Hb. rewrite Hcf in Hb.
  rewrite !ZifyInst.of_nat_to_nat_eq in Hb. lia.
Qed.

Lemma suspect_lines_counts_slots_witness :
  ∃ c st lg,
    run_lines (Config_2way true) trace_ping_pong (run_init (Config_2way true) None)
      = Ok (c, st, lg) ∧
    stat st "suspect_lines" = suspect_slots c ∧ 0 ≤ stat st "suspect_lines" ≤ 2.
Proof.
  assert (Hok : is_Ok (run_lines (Config_2way true) trace_ping_pong
                         (run_init (Config_2way true) None)) = true)
    by (vm_compute; reflexivity).
  destruct (run_lines (Config_2way true) trace_ping_pong
              (run_init (Config_2way true) None))
    as [[[c st] lg]|e] eqn:Er; [|discriminate Hok].
  destruct (suspect_lines_counts_slots _ _ _ _ _ _ Er) as [Heq Hb].
  exists c, st, lg. split; [reflexivity|]. split; [exact Heq|]. exact Hb.
Defined.

(** ** Traces of a single core *)

Lemma access_hit_own cf k w wd line st lg :
  owned_by k line → state line ≠ INVALID →
  access_hit cf k w wd line st lg
  = (if w then set_state MODIFIED (set_owner (Some k) line)
     else let l1 := set_sharers ({[Some k]} ∪ sharers line) line in
          if decide (state l1 = EXCLUSIVE) then set_state SHARED l1 else l1,
     incr "hits" 1 st, lg).
Proof.
  intros Hown Hst. specialize (Hown Hst). unfold access_hit.
  destruct w.
  - rewrite decide_False; [done|]. intros [_ ?]. done.
  - rewrite decide_False; [done|]. intros [_ ?]. done.
Qed.

Lemma access_own_core c k w addr st lg c' st' lg' :
  all_lines (owned_by k) c →
  access c k w addr st lg = Ok (c', st', lg') →
  all_lines (owned_by k) c' ∧ lg' = lg ∧
  ∀ key, key ≠ "hits"%string → key ≠ "misses"%string →
         key ≠ "stall_cycles"%string → st' !! key = st !! key.
Proof.
  intros Hc H. split.
  { revert Hc H. apply access_all_lines.
    - intros t l Hst. done.
    - intros wd line Hown Hst. rewrite (access_hit_own _ _ _ _ _ _ _ Hown Hst).
      simpl.
      match goal with
      | |- owned_by _ (update_history ?a ?b ?d ?l) =>
          destruct (update_history_frame a b d l) as (_ & _ & Ho & _);
          unfold owned_by; rewrite Ho
      end.
      destruct w; [done|]. intros _. case_decide; simpl; by apply Hown.
    - intros wd line line' st1 lg1 Hm. unfold owned_by.
      destruct (update_history_frame k w wd line') as (_ & _ & -> & _).
      apply access_miss_installed in Hm as (_ & _ & -> & _). done. }
  pose proof H as H'.
  apply access_Ok in H' as (wd & c1 & r & line & hit & line' & Hw & Hp & Hs & _).
  destruct hit.
  - assert (owned_by k line ∧ state line ≠ INVALID) as [Hown Hst].
    { apply probe_hit in Hp as (idx & t & ways & _ & Hg & Hl & [_ Hst] & _).
      split; [|done]. apply py_getitem_Ok in Hg.
      eapply Forall_lookup_1; [|exact Hl]. by eapply Forall_lookup_1. }
    rewrite (access_hit_own _ _ _ _ _ _ _ Hown Hst) in Hs.
    injection Hs as _ <- <-. split; [done|]. intros key ? ? ?. by simpl_stat.
  - destruct (miss_charges_nothing _ _ _ _ _ _ _ _ _ _ _ _ _ Hw Hp H)
      as (-> & -> & _).
    split; [done|]. intros key ? ? ?. by simpl_stat.
Qed.

Lemma run_line_record_core cf ln s s' :
  skipped ln = false → run_line cf ln s = Ok s' →
  ∃ core w addr c' st' lg',
    record_core ln = Ok core ∧
    access s.1.1 core w addr s.1.2 s.2 = Ok (c', st', lg') ∧
    s' = (c', incr "stall_cycles" (hit_latency cf) (incr "instructions" 1 st'), lg').
Proof.
  unfold skipped, run_line, record_core. intros ->.
  destruct (py_getitem _ 0) as [p0|e]; [simpl|done].
  destruct (py_int p0.2) as [core|e]; [simpl|done].
  destruct (py_getitem _ 1) as [p1|e]; [simpl|done].
  destruct (py_getitem _ 2) as [p2|e]; [simpl|done].
  destruct (py_int0 p2.2) as [addr|e]; [simpl|done].
  destruct (access _ core _ addr _ _) as [[[c' st'] lg']|e] eqn:Ea; [simpl|done].
  intros [= <-]. eauto 10.
Qed.

Lemma run_lines_own_core cf k trace s s' :
  Forall (λ ln, skipped ln = false → record_core ln = Ok k) trace →
  all_lines (owned_by k) s.1.1 →
  run_lines cf trace s = Ok s' →
  s'.2 = s.2 ∧
  ∀ key, key ≠ "hits"%string → key ≠ "misses"%string →
         key ≠ "stall_cycles"%string → key ≠ "instructions"%string →
         s'.1.2 !! key = s.1.2 !! key.
Proof.
  intros Htr. revert s. induction Htr as [|ln rest Hln _ IH]; intros s Hc H;
    simpl in H.
  - by injection H as <-.
  - inv_bind H. destruct (skipped ln) eqn:Esk.
    + rewrite run_line_skipped in E by done. injection E as <-. by apply IH.
    + apply run_line_record_core in E
        as (core & w & addr & c' & st' & lg' & Hcore & Ha & ->); [|done].
      rewrite (Hln eq_refl) in Hcore. injection Hcore as <-.
      destruct (access_own_core _ _ _ _ _ _ _ _ _ Hc Ha) as (Hc' & -> & Hf).
      apply IH in H as [Hlg Hst]; [|exact Hc']. simpl in *. split; [done|].
      intros key ? ? ? ?. rewrite Hst by done. simpl_stat. by apply Hf.
Qed.

(** X10: a trace whose records all name the same core causes no coherence
    event at all: at the end of the loop [invalidations],
    [avoided_invalidations], [suspect_events] and [suspect_lines] are 0 and
    the log holds nothing but what it held at the start. *)
Theorem single_core_trace cf k trace lp c st lg :
  Forall (λ ln, skipped ln = false → record_core ln = Ok k) trace →
  run_lines cf trace (run_init cf lp) = Ok (c, st, lg) →
  stat st "invalidations" = 0 ∧ stat st "avoided_invalidations" = 0 ∧
  stat st "suspect_events" = 0 ∧ stat st "suspect_lines" = 0 ∧
  lg = Logger_new lp.
Proof.
  intros Htr H.
  apply (run_lines_own_core _ k) in H as [Hlg Hst]; [|done|].
  - simpl in *. unfold stat. rewrite !Hst by done. done.
  - apply Cache_new_all_lines. intros Hs. done.
Qed.

Lemma single_core_trace_witness :
  ∃ c st lg,
    run_lines (Config_2way true) ["7 W 0x0"; "7 R 0x44"; "# c"; "7 W 0x80"; "7 W 4"]
      (run_init (Config_2way true) (Some "log.csv")) = Ok (c, st, lg) ∧
    stat st "invalidations" = 0 ∧ stat st "suspect_events" = 0.
Proof.
  assert (Hok : is_Ok (run_lines (Config_2way true)
                         ["7 W 0x0"; "7 R 0x44"; "# c"; "7 W 0x80"; "7 W 4"]
                         (run_init (Config_2way true) (Some "log.csv"))) = true)
    by (vm_compute; reflexivity).
  destruct (run_lines (Config_2way true)
              ["7 W 0x0"; "7 R 0x44"; "# c"; "7 W 0x80"; "7 W 4"]
              (run_init (Config_2way true) (Some "log.csv")))
    as [[[c st] lg]|e] eqn:Er; [|discriminate Hok].
  destruct (single_core_trace (Config_2way true) 7
              ["7 W 0x0"; "7 R 0x44"; "# c"; "7 W 0x80"; "7 W 4"]
              (Some "log.csv") c st lg) as (Hi & _ & He & _).
  - repeat (apply List.Forall_cons;
            [intros Hs;
             first [vm_compute; reflexivity | vm_compute in Hs; discriminate Hs]|]).
    apply List.Forall_nil.
  - exact Er.
  - exists c, st, lg. split; [reflexivity|]. split; [exact Hi | exact He].
Defined.

(** ** A threshold out of reach *)

Lemma sumZ_zero {A} (f : A → Z) (l : list A) :
  Forall (λ x, f x = 0) l → sumZ f l = 0.
Proof. induction 1 as [|x l Hx _ IH]; simpl; [done|]. lia. Qed.

Lemma access_never_suspect c core w addr st lg c' st' lg' :
  3 < fs_threshold (cfg c) →
  all_lines (λ l, 0 ≤ fs_conf l ≤ 3 ∧ fs_suspect l = false) c →
  access c core w addr st lg = Ok (c', st', lg') →
  all_lines (λ l, 0 ≤ fs_conf l ≤ 3 ∧ fs_suspect l = false) c'.
Proof.
  intros Hth.
  assert (∀ line wd, 0 ≤ fs_conf line ≤ 3 ∧ fs_suspect line = false →
            0 ≤ fs_conf (_maybe_detect (cfg c) line core wd st lg).1.1 ≤ 3 ∧
            fs_suspect (_maybe_detect (cfg c) line core wd st lg).1.1 = false)
    as Hdet.
  { intros line wd [Hc Hs]. unfold _maybe_detect.
    repeat case_decide; simpl in *; try (split; [lia|done]).
    destruct_and!. lia. }
  apply access_all_lines_pres.
  - intros t l H. done.
  - intros wd line H _.
    destruct (update_history_detector_fields core w wd
                (access_hit (cfg c) core w wd line st lg).1.1) as [-> ->].
    destruct (access_hit_detector_cases (cfg c) core w wd line st lg)
      as [[-> ->]|[-> ->]]; [done|by apply Hdet].
  - intros wd line line' st1 lg1 H Hm.
    destruct (update_history_detector_fields core w wd line') as [-> ->].
    apply access_miss_detector_fields in Hm as [-> ->]. by apply Hdet.
Qed.

Lemma reachable_never_suspect cf c :
  3 < fs_threshold cf → reachable cf c →
  all_lines (λ l, 0 ≤ fs_conf l ≤ 3 ∧ fs_suspect l = false) c.
Proof.
  intros Hth. induction 1 as [|c core w addr st lg c' st' lg' Hr IH Ha].
  - apply Cache_new_all_lines. simpl. split; [lia|done].
  - eapply access_never_suspect; [|done|done].
    by rewrite (reachable_cfg _ _ Hr).
Qed.

(** X11: the confidence counter saturates at 3, so with a threshold above
    3 (as with [--fs-threshold 4]) no line is ever marked suspect: on every
    cache a run can reach all latches are clear, and no access changes
    [suspect_lines] or, even with mitigation enabled,
    [avoided_invalidations]. *)
Theorem threshold_above_three cf c :
  3 < fs_threshold cf → reachable cf c →
  (∀ r l, line_at c r = Some l → fs_suspect l = false) ∧
  ∀ core w addr st lg c' st' lg',
    access c core w addr st lg = Ok (c', st', lg') →
    stat st' "suspect_lines" = stat st "suspect_lines" ∧
    stat st' "avoided_invalidations" = stat st "avoided_invalidations".
Proof.
  intros Hth Hr. pose proof (reachable_never_suspect _ _ Hth Hr) as Hall.
  split.
  { intros r l Hat.
    by destruct (all_lines_at (λ l, 0 ≤ fs_conf l ≤ 3 ∧ fs_suspect l = false)
                   c r l Hall Hat) as [_ ?]. }
  intros core w addr st lg c' st' lg' H.
  assert (∀ c0, all_lines (λ l, 0 ≤ fs_conf l ≤ 3 ∧ fs_suspect l = false) c0 →
                suspect_slots c0 = 0) as Hzero.
  { intros c0 H0. unfold suspect_slots. apply sumZ_zero.
    eapply Forall_impl; [exact H0|]. intros ways Hw. apply sumZ_zero.
    eapply Forall_impl; [exact Hw|]. intros l [_ Hl]. unfold suspect_bit.
    by rewrite Hl. }
  split.
  { pose proof (access_suspect_delta _ _ _ _ _ _ _ _ _ H) as Hd.
    rewrite (Hzero c Hall) in Hd. rewrite (Hzero c') in Hd; [lia|].
    eapply access_never_suspect; [|exact Hall|exact H].
    by rewrite (reachable_cfg _ _ Hr). }
  pose proof H as H'.
  apply access_Ok in H' as (wd & c1 & r & line & hit & line' & Hw & Hp & Hs & _).
  destruct hit.
  - assert (fs_suspect (_maybe_detect (cfg c) line core wd st lg).1.1 = false)
      as Hns.
    { assert (0 ≤ fs_conf line ≤ 3 ∧ fs_suspect line = false) as [Hc Hl].
      { destruct (probe_old_line _ _ _ _ _ _ Hp) as (old & Hold & Heq & _).
        simpl in Heq. subst old.
        exact (all_lines_at (λ l, 0 ≤ fs_conf l ≤ 3 ∧ fs_suspect l = false)
                 c r line Hall Hold). }
      rewrite (reachable_cfg _ _ Hr). unfold _maybe_detect.
      repeat case_decide; simpl in *; try done. destruct_and!. lia. }
    injection Hs as Hs. unfold access_hit in Hs.
    destruct (_maybe_detect (cfg c) line core wd st lg) as [[l1 st1] lg1] eqn:Ed.
    apply detect_frame in Ed as (_ & _ & _ & _ & _ & _ & Hf).
    simpl in Hns. unfold suppressed in Hs. rewrite Hns in Hs. simpl in Hs.
    unfold stat.
    destruct w; repeat case_decide; simpl in Hs; injection Hs as <- <- <-;
      simpl_stat; rewrite ?Hf by done; done.
  - destruct (miss_charges_nothing _ _ _ _ _ _ _ _ _ _ _ _ _ Hw Hp H)
      as (_ & -> & _).
    by simpl_stat.
Qed.

Lemma threshold_above_three_witness :
  ∃ c' st' lg',
    access (Cache_new (mkConfig 64 64 8 4 4 true 4 40 10)) 0 true 0 ∅
      (Logger_new None) = Ok (c', st', lg') ∧
    stat st' "suspect_lines" = 0 ∧ stat st' "avoided_invalidations" = 0.
Proof.
  assert (Hok : is_Ok (access (Cache_new (mkConfig 64 64 8 4 4 true 4 40 10))
                         0 true 0 ∅ (Logger_new None)) = true)
    by (vm_compute; reflexivity).
  destruct (access (Cache_new (mkConfig 64 64 8 4 4 true 4 40 10)) 0 true 0 ∅
              (Logger_new None)) as [[[c' st'] lg']|e] eqn:Ea; [|discriminate Hok].
  destruct (threshold_above_three (mkConfig 64 64 8 4 4 true 4 40 10)
              (Cache_new (mkConfig 64 64 8 4 4 true 4 40 10)))
    as [_ Hstep]; [simpl; lia | constructor |].
  destruct (Hstep 0 true 0 ∅ (Logger_new None) c' st' lg' Ea) as [Hsl Hav].
  exists c', st', lg'. split; [reflexivity|]. split; [exact Hsl | exact Hav].
Defined.

(** ** Lines of the trace *)

Lemma py_getitem_short {A} (l : list A) (n : nat) :
  (length l ≤ n)%nat → py_getitem l (Z.of_nat n) = Raise IndexError.
Proof.
  intros H. unfold py_getitem, py_pos.
  rewrite decide_True by lia. by rewrite decide_False by lia.
Qed.

Lemma run_line_short cf ln s :
  skipped ln = false → (length (py_split (py_strip ln)) < 3)%nat →
  is_Ok (run_line cf ln s) = false.
Proof.
  unfold skipped, run_line. intros -> Hlen.
  destruct (py_split (py_strip ln)) as [|p0 [|p1 [|p2 rest]]] eqn:Ep;
    simpl in Hlen; try lia.
  - by rewrite (py_getitem_short [] 0).
  - pose proof (py_getitem_nth [p0] 0 p0 eq_refl) as G0.
    change (Z.of_nat 0) with 0 in G0. rewrite G0. simpl.
    by destruct (py_int p0) as [core|e].
  - pose proof (py_getitem_nth [p0; p1] 0 p0 eq_refl) as G0.
    change (Z.of_nat 0) with 0 in G0. rewrite G0. simpl.
    by destruct (py_int p0) as [core|e].
Qed.

Lemma run_lines_skipped cf trace s :
  Forall (λ ln, skipped ln = true) trace → run_lines cf trace s = Ok s.
Proof.
  induction 1 as [|ln rest Hln _ IH]; simpl; [done|].
  by rewrite run_line_skipped.
Qed.

Section TraceLines.
Context {F : Type}.
Variable float_of_int : Z → F.
Variable float_mul float_div : F → F → F.
Variable int_truediv : Z → Z → F.

(** X12: a line that is blank (white space only) or starts with [#] has
    no effect wherever it stands: removing it from the trace leaves the
    result of the run, dictionary or exception, unchanged. *)
Theorem skipped_line_ignored t1 ln t2 cf lp :
  skipped ln = true →
  run_trace float_of_int float_mul float_div int_truediv (t1 ++ ln :: t2) cf lp
  = run_trace float_of_int float_mul float_div int_truediv (t1 ++ t2) cf lp.
Proof.
  intros Hsk. unfold run_trace, run_counters. rewrite !run_lines_app.
  destruct (run_lines cf t1 (run_init cf lp)) as [s1|e]; simpl; [|done].
  by rewrite run_line_skipped.
Qed.

(** X13: a record that is neither blank nor a comment and has fewer than
    three fields is never skipped: wherever it stands in the trace, the run
    ends in an exception and returns no statistics. *)
Theorem short_record_aborts t1 ln t2 cf lp :
  skipped ln = false → (length (py_split (py_strip ln)) < 3)%nat →
  is_Ok (run_trace float_of_int float_mul float_div int_truediv
           (t1 ++ ln :: t2) cf lp) = false.
Proof.
  intros Hsk Hlen. unfold run_trace, run_counters. rewrite run_lines_app.
  destruct (run_lines cf t1 (run_init cf lp)) as [s1|e]; simpl; [|done].
  pose proof (run_line_short cf ln s1 Hsk Hlen) as Hr.
  by destruct (run_line cf ln s1).
Qed.

(** X14: a trace without records (empty, or blank lines and comments only)
    completes under every configuration, even an unusable one, with
    [instructions], [invalidations] and [stall_cycles] equal to 0, no other
    counter, [ipki] computed as 0 * 1000.0 / 1 and [ipc_proxy] set to 0.0
    without dividing. *)
Theorem empty_trace_summary trace cf lp :
  Forall (λ ln, skipped ln = true) trace →
  run_trace float_of_int float_mul float_div int_truediv trace cf lp
  = Ok (<["ipc_proxy" := PFloat (float_of_int 0)]>
         (<["ipki" := PFloat (float_div (float_mul (float_of_int 0)
                                           (float_of_int 1000))
                                (float_of_int 1))]>
           (<["stall_cycles" := PInt 0]>
             (<["invalidations" := PInt 0]> {["instructions" := PInt 0]})))).
Proof.
  intros H. unfold run_trace, run_counters.
  rewrite (run_lines_skipped _ _ _ H). simpl. reflexivity.
Qed.
End TraceLines.

Lemma skipped_line_ignored_witness :
  run_trace FInt FMul FDiv FTrueDiv (["0 W 0x0"] ++ "   " :: ["1 R 0x4"])
    Config_default None
  = run_trace FInt FMul FDiv FTrueDiv (["0 W 0x0"] ++ ["1 R 0x4"])
      Config_default None.
Proof.
  apply (skipped_line_ignored FInt FMul FDiv FTrueDiv ["0 W 0x0"] "   "
           ["1 R 0x4"] Config_default None).
  vm_compute. reflexivity.
Defined.

Lemma short_record_aborts_witness :
  is_Ok (run_trace FInt FMul FDiv FTrueDiv (["1 R 0x40"] ++ "0 W" :: [])
           Config_default None) = false.
Proof.
  apply (short_record_aborts FInt FMul FDiv FTrueDiv ["1 R 0x40"] "0 W" []
           Config_default None).
  - vm_compute. reflexivity.
  - vm_compute. lia.
Defined.

Lemma empty_trace_summary_witness :
  ∃ d, run_trace FInt FMul FDiv FTrueDiv ["# nothing"; ""; "  "]
         (mkConfig 0 0 0 0 2 false 4 40 10) None = Ok d ∧
       counter d "instructions" = PInt 0 ∧
       counter d "ipc_proxy" = PFloat (FInt 0).
Proof.
  eexists. split.
  - apply (empty_trace_summary FInt FMul FDiv FTrueDiv ["# nothing"; ""; "  "]
             (mkConfig 0 0 0 0 2 false 4 40 10) None).
    repeat (apply List.Forall_cons; [vm_compute; reflexivity|]).
    apply List.Forall_nil.
  - split; reflexivity.
Defined.

(** ** Decomposition of an address *)

(** X15: with positive line, word and set sizes and words no larger than
    a line, every address, negative ones included, has a set index in
    [0, sets), a tag whose line contains the address, and a word index in
    [0, line_bytes // word_bytes).  When the word size divides the line size
    the word index is the word offset inside the line,
    (addr mod line_bytes) // word_bytes. *)
Theorem address_decomposition cf addr :
  0 < line_bytes cf → 0 < sets cf → 0 < word_bytes cf →
  word_bytes cf ≤ line_bytes cf →
  ∃ idx t wd,
    _index_tag cf addr = Ok (idx, t) ∧ _word_idx cf addr = Ok wd ∧
    0 ≤ idx < sets cf ∧
    t * line_bytes cf ≤ addr < (t + 1) * line_bytes cf ∧
    0 ≤ wd < line_bytes cf `div` word_bytes cf ∧
    ((word_bytes cf | line_bytes cf) →
     wd = (addr `mod` line_bytes cf) `div` word_bytes cf).
Proof.
  intros Hlb Hsets Hwb Hle.
  assert (0 < line_bytes cf `div` word_bytes cf) as Hm.
  { apply Z.div_str_pos. lia. }
  exists ((addr `div` line_bytes cf) `mod` sets cf), (addr `div` line_bytes cf),
    ((addr `div` word_bytes cf) `mod` (line_bytes cf `div` word_bytes cf)).
  split. { apply _index_tag_Ok. repeat split; try done; lia. }
  split.
  { unfold _word_idx, py_floordiv, py_mod.
    rewrite !decide_False by lia. simpl. by rewrite decide_False by lia. }
  split. { by apply Z.mod_pos_bound. }
  split.
  { pose proof (Z.div_mod addr (line_bytes cf)) as Hd.
    pose proof (Z.mod_pos_bound addr (line_bytes cf) Hlb). lia. }
  split. { by apply Z.mod_pos_bound. }
  intros [m Hdiv].
  assert (line_bytes cf `div` word_bytes cf = m) as Hmq.
  { rewrite Hdiv. apply Z.div_mul. lia. }
  rewrite Hmq in *.
  pose proof (Z.div_mod addr (line_bytes cf) ltac:(lia)) as Hd.
  pose proof (Z.mod_pos_bound addr (line_bytes cf) Hlb) as Hr.
  remember (addr `div` line_bytes cf) as q eqn:Hq.
  remember (addr `mod` line_bytes cf) as r eqn:Hrem.
  clear Hq Hrem. subst addr.
  replace (line_bytes cf * q + r) with (q * m * word_bytes cf + r)
    by (rewrite Hdiv; ring).
  rewrite Z.div_add_l by lia.
  rewrite Z.add_comm, Z.mod_add by lia.
  apply Z.mod_small. split.
  - apply Z.div_pos; lia.
  - apply Z.div_lt_upper_bound; lia.
Qed.

Lemma address_decomposition_witness :
  ∃ idx t wd,
    _index_tag Config_default (-1) = Ok (idx, t) ∧
    _word_idx Config_default (-1) = Ok wd ∧
    0 ≤ idx < 64 ∧ 0 ≤ wd < 16 ∧ wd = 15.
Proof.
  destruct (address_decomposition Config_default (-1))
    as (idx & t & wd & Hi & Hw & Hidx & _ & Hwd & Hoff);
    [simpl; lia | simpl; lia | simpl; lia | simpl; lia |].
  exists idx, t, wd. split; [exact Hi|]. split; [exact Hw|].
  split; [exact Hidx|]. split; [exact Hwd|]. apply Hoff. by exists 16.
Defined.

(** ** The plotting script *)

(** X16: [main] of the plotting script goes on to plot exactly when the
    baseline and fix lists have the same length and the labels, when any are
    given, have that length too; otherwise it exits with a message before
    any file is read. *)
Theorem main_labels_checked baseline fix_ labels :
  (∃ ls, main_labels baseline fix_ labels = inr ls) ↔
    (length baseline = length fix_ ∧
     ∀ x xs, labels = Some (x :: xs) → length (x :: xs) = length baseline).
Proof.
  unfold main_labels. split.
  - intros [ls H].
    destruct (decide (length baseline ≠ length fix_)) as [Hne|Heq]; [done|].
    split. { destruct (decide (length baseline = length fix_)); [done|by exfalso]. }
    intros x xs ->.
    destruct (decide (length (x :: xs) ≠ length baseline)) as [Hl|Hl]; [done|].
    destruct (decide (length (x :: xs) = length baseline)); [done|by exfalso].
  - intros [Hlen Hl]. rewrite decide_False by (by intros ?).
    destruct labels as [[|x xs]|]; eauto.
    rewrite decide_False; [eauto|]. intros Hne. apply Hne. by apply Hl.
Qed.

Lemma main_labels_checked_witness :
  ∃ ls, main_labels ["a.json"; "b.json"] ["c.json"; "d.json"] None = inr ls.
Proof.
  apply (main_labels_checked ["a.json"; "b.json"] ["c.json"; "d.json"] None).
  split; [reflexivity | discriminate].
Defined.

(** X17: when [main] of the plotting script gets past its checks it has
    one label per baseline file and per fix file; the default labels [w0],
    [w1], ... used when none are given are pairwise different. *)
Theorem main_labels_length baseline fix_ labels ls :
  main_labels baseline fix_ labels = inr ls →
  length ls = length baseline ∧ length ls = length fix_ ∧
  (labels = None ∨ labels = Some [] → NoDup ls).
Proof.
  unfold main_labels. intros H.
  destruct (decide (length baseline ≠ length fix_)) as [Hne|Hn]; [done|].
  assert (length baseline = length fix_) as Heq.
  { destruct (decide (length baseline = length fix_)); [done|by exfalso]. }
  assert (∀ n, NoDup ((λ i : nat, "w" +:+ pretty i) <$> seq 0 n)) as Hnd.
  { intros n. apply NoDup_fmap_2; [|apply NoDup_seq].
    intros i j Hij. apply (inj pretty). by apply (inj (String.append "w")). }
  destruct labels as [[|x xs]|].
  - injection H as <-. rewrite length_fmap, length_seq. rewrite <- Heq. eauto.
  - destruct (decide (length (x :: xs) ≠ length baseline)) as [Hl|Hl]; [done|].
    injection H as <-.
    assert (length (x :: xs) = length baseline) as Hx.
    { destruct (decide (length (x :: xs) = length baseline)); [done|by exfalso]. }
    rewrite <- Heq. split; [done|]. split; [done|]. intros [?|?]; done.
  - injection H as <-. rewrite length_fmap, length_seq. rewrite <- Heq. eauto.
Qed.

Lemma main_labels_length_witness :
  ∃ ls, main_labels ["a.json"; "b.json"] ["c.json"; "d.json"] None = inr ls ∧
        length ls = 2%nat ∧ NoDup ls.
Proof.
  destruct (main_labels_length ["a.json"; "b.json"] ["c.json"; "d.json"] None
              ["w0"; "w1"] eq_refl) as (Hl & _ & Hnd).
  exists ["w0"; "w1"]. split; [reflexivity|]. split; [exact Hl|].
  apply Hnd. by left.
Defined.

(** ** The detector history *)

Lemma access_hit_history cf core w wd line st lg :
  owner (access_hit cf core w wd line st lg).1.1
    = (if w then Some core else owner line) ∧
  last_writer_core (access_hit cf core w wd line st lg).1.1
    = last_writer_core line ∧
  last_word (access_hit cf core w wd line st lg).1.1 = last_word line.
Proof.
  unfold access_hit.
  destruct (_maybe_detect cf line core wd st lg) as [[l1 st1] lg1] eqn:Ed.
  apply detect_frame in Ed as (_ & _ & Ho & _ & Hlw & Hlwd & _).
  destruct w; repeat case_decide; try destruct (negb _); simpl;
    rewrite ?Ho, ?Hlw, ?Hlwd; done.
Qed.

(** X18: the history the detector compares against.  After an access the
    accessed line records the requester and its word index whenever the
    access was a write, a miss (read misses included), or a read hit by the
    line's owner; a read hit by any other core leaves the recorded writer
    and word as they were. *)
Theorem history_update c core (w : bool) addr st lg wd c1 r line (hit : bool)
    c' st' lg' :
  _word_idx (cfg c) addr = Ok wd →
  probe c addr = Ok (c1, r, line, hit) →
  access c core w addr st lg = Ok (c', st', lg') →
  ∃ l',
    line_at c' r = Some l' ∧
    (last_writer_core l', last_word l') =
      (if w || negb hit || bool_decide (owner line = Some core)
       then (core, wd) else (last_writer_core line, last_word line)).
Proof.
  intros Hw Hp H. destruct hit.
  - destruct (access_line_at _ _ _ _ _ _ _ _ _ H _ _ _ _ _ Hw Hp)
      as (line' & Hs & Hat).
    exists (update_history core w wd line'). split; [done|].
    injection Hs as Hs.
    destruct (access_hit_history (cfg c) core w wd line st lg) as (Ho & Hlw & Hlwd).
    rewrite Hs in Ho, Hlw, Hlwd. simpl in *.
    unfold update_history. rewrite Ho. destruct w; simpl; [done|].
    destruct (bool_decide (owner line = Some core)); simpl; [done|].
    by rewrite Hlw, Hlwd.
  - destruct (miss_charges_nothing _ _ _ _ _ _ _ _ _ _ _ _ _ Hw Hp H)
      as (_ & _ & Hat).
    eexists. split; [exact Hat|]. simpl. by rewrite orb_true_r.
Qed.

Lemma history_update_witness :
  ∃ c' st' lg' l',
    access cache_owned0 0 false 8 ∅ (Logger_new None) = Ok (c', st', lg') ∧
    line_at c' (0%nat, 0%nat) = Some l' ∧
    (last_writer_core l', last_word l') = (0, 2).
Proof.
  assert (Hok : is_Ok (access cache_owned0 0 false 8 ∅ (Logger_new None)) = true)
    by (vm_compute; reflexivity).
  destruct (access cache_owned0 0 false 8 ∅ (Logger_new None))
    as [[[c' st'] lg']|e] eqn:Ea; [|discriminate Hok].
  destruct (history_update cache_owned0 0 false 8 ∅ (Logger_new None) 2
              cache_owned0 (0%nat, 0%nat)
              (mkLine 0 MODIFIED (Some 0) {[Some 0]} 0 0 0 false) true c' st' lg')
    as (l' & Hat & Hh);
    [vm_compute; reflexivity | vm_compute; reflexivity | exact Ea |].
  exists c', st', lg', l'. split; [reflexivity|]. split; [exact Hat | exact Hh].
Defined.

(** ** Stall cycles *)

Lemma access_stall c core w addr st lg c' st' lg' :
  access c core w addr st lg = Ok (c', st', lg') →
  ∃ k, 0 ≤ k ≤ stat st' "hits" - stat st "hits" ∧
       0 ≤ stat st' "misses" - stat st "misses" ∧
       stat st' "stall_cycles" - stat st "stall_cycles"
       = (stat st' "misses" - stat st "misses") * miss_latency (cfg c)
         + k * inv_latency (cfg c).
Proof.
  intros H. pose proof H as H'.
  apply access_Ok in H' as (wd & c1 & r & line & hit & line' & Hw & Hp & Hs & _).
  destruct hit.
  - injection Hs as Hs.
    destruct (access_hit_counts (cfg c) core w wd line st lg) as [Hh Hm].
    rewrite Hs in Hh, Hm. simpl in Hh, Hm. rewrite Hh, Hm.
    unfold access_hit in Hs.
    destruct (_maybe_detect (cfg c) line core wd st lg) as [[l1 st1] lg1] eqn:Ed.
    apply detect_frame in Ed as (_ & _ & _ & _ & _ & _ & Hf).
    assert (stat st1 "stall_cycles" = stat st "stall_cycles") as Hst.
    { unfold stat. by rewrite Hf. }
    destruct w; repeat case_decide; try destruct (negb _); simpl in Hs;
      injection Hs as <- <- <-; simpl_stat; rewrite ?Hst;
      first [exists 1; lia | exists 0; lia].
  - destruct (miss_charges_nothing _ _ _ _ _ _ _ _ _ _ _ _ _ Hw Hp H)
      as (_ & -> & _).
    exists 0. simpl_stat. lia.
Qed.

Lemma run_lines_stall cf trace s s' :
  cfg s.1.1 = cf → run_lines cf trace s = Ok s' →
  ∃ k, 0 ≤ k ≤ stat s'.1.2 "hits" - stat s.1.2 "hits" ∧
       0 ≤ stat s'.1.2 "misses" - stat s.1.2 "misses" ∧
       stat s'.1.2 "stall_cycles" - stat s.1.2 "stall_cycles"
       = (stat s'.1.2 "instructions" - stat s.1.2 "instructions") * hit_latency cf
         + (stat s'.1.2 "misses" - stat s.1.2 "misses") * miss_latency cf
         + k * inv_latency cf.
Proof.
  revert s. induction trace as [|ln rest IH]; intros s Hcf H; simpl in H.
  - injection H as <-. exists 0. lia.
  - inv_bind H.
    apply run_line_Ok in E as [->|(core & w & addr & c1 & st1 & lg1 & Ha & ->)].
    + by apply IH.
    + destruct (access_stall _ _ _ _ _ _ _ _ _ Ha) as (k1 & Hk1 & Hm1 & Hs1).
      assert (stat st1 "instructions" = stat s.1.2 "instructions") as Hi.
      { unfold stat. by rewrite (access_untouched _ _ _ _ _ _ _ _ _ _ Ha). }
      apply IH in H as (k2 & Hk2 & Hm2 & Hs2);
        [|simpl; by rewrite (access_cfg _ _ _ _ _ _ _ _ _ Ha)].
      simpl in *. revert Hk2 Hm2 Hs2. simpl_stat. rewrite Hcf in Hs1.
      intros Hk2 Hm2 Hs2. exists (k1 + k2). nia.
Qed.

Section StallCycles.
Context {F : Type}.
Variable float_of_int : Z → F.
Variable float_mul float_div : F → F → F.
Variable int_truediv : Z → Z → F.

(** X19: the stall cycles of a completed run decompose into
    [hit_latency] per instruction, [miss_latency] per miss and [inv_latency]
    for each of at most [hits] charged invalidation events. *)
Theorem stall_cycles_decompose trace cf lp d :
  run_trace float_of_int float_mul float_div int_truediv trace cf lp = Ok d →
  ∃ n h m k,
    counter d "instructions" = PInt n ∧ counter d "hits" = PInt h ∧
    counter d "misses" = PInt m ∧ 0 ≤ k ≤ h ∧ 0 ≤ m ∧
    counter d "stall_cycles"
    = PInt (n * hit_latency cf + m * miss_latency cf + k * inv_latency cf).
Proof.
  intros H. unfold run_trace in H. inv_bind H. injection H as <-.
  unfold run_counters in E. inv_bind E. injection E as <-.
  apply run_lines_stall in E0 as (k & Hk & Hm & Hs); [|done]. simpl in *.
  change (stat {["instructions" := 0]} "instructions") with 0 in *.
  change (stat {["instructions" := 0]} "hits") with 0 in *.
  change (stat {["instructions" := 0]} "misses") with 0 in *.
  change (stat {["instructions" := 0]} "stall_cycles") with 0 in *.
  exists (stat a0.1.2 "instructions"), (stat a0.1.2 "hits"),
    (stat a0.1.2 "misses"), k.
  rewrite !derive_counter by done.
  repeat split; try done; try lia. f_equal. lia.
Qed.
End StallCycles.

Lemma stall_cycles_decompose_witness :
  ∃ d n h m k,
    run_trace FInt FMul FDiv FTrueDiv ["0 W 0x0"; "1 W 0x4"; "1 R 0x8"]
      (Config_2way false) None = Ok d ∧
    counter d "instructions" = PInt n ∧ counter d "hits" = PInt h ∧
    counter d "misses" = PInt m ∧ 0 ≤ k ≤ h ∧
    counter d "stall_cycles" = PInt (n * 4 + m * 40 + k * 10).
Proof.
  assert (Hok : is_Ok (run_trace FInt FMul FDiv FTrueDiv
                         ["0 W 0x0"; "1 W 0x4"; "1 R 0x8"]
                         (Config_2way false) None) = true)
    by (vm_compute; reflexivity).
  destruct (run_trace FInt FMul FDiv FTrueDiv ["0 W 0x0"; "1 W 0x4"; "1 R 0x8"]
              (Config_2way false) None) as [d|e] eqn:Er; [|discriminate Hok].
  destruct (stall_cycles_decompose FInt FMul FDiv FTrueDiv _ _ _ d Er)
    as (n & h & m & k & Hn & Hh & Hm & Hk & _ & Hs).
  exists d, n, h, m, k. split; [reflexivity|]. split; [exact Hn|].
  split; [exact Hh|]. split; [exact Hm|]. split; [exact Hk | exact Hs].
Defined.

(** ** Residency *)

(** The row an access rewrites: one way of the probed set is replaced by
    a valid line with the probed tag, which was found there on a hit and was
    nowhere in the set on a miss. *)
Lemma access_row c core w addr st lg c' st' lg' :
  access c core w addr st lg = Ok (c', st', lg') →
  ∃ r ways new (hit : bool),
    lines c !! r.1 = Some ways ∧
    lines c' = <[r.1 := <[r.2 := new]> ways]> (lines c) ∧
    state new ≠ INVALID ∧
    (if hit
     then ∃ line, ways !! r.2 = Some line ∧ line_matches (tag new) line
     else Forall (λ l, ¬ line_matches (tag new) l) ways).
Proof.
  intros H.
  apply access_Ok in H as (wd & c1 & r & line & hit & line' & Hw & Hp & Hs & ->).
  destruct (update_history_frame core w wd line') as (Ht & Hst & _).
  exists r. destruct hit.
  - pose proof Hp as Hp'.
    apply probe_hit in Hp' as (idx & t & ways & _ & Hg & Hl & [Htag Hval] & ->).
    apply py_getitem_Ok in Hg. injection Hs as Hs.
    destruct (access_hit_resident (cfg c) core w wd line st lg Hval) as [Hr1 Hr2].
    rewrite Hs in Hr1, Hr2. simpl in Hr1, Hr2.
    exists ways, (update_history core w wd line'), true.
    split; [done|]. split. { unfold store. by rewrite Hg. }
    rewrite Ht, Hst. split; [done|]. exists line. split; [done|].
    split; [congruence | done].
  - pose proof Hp as Hp'.
    apply probe_miss in Hp'
      as (idx & t & ways & ci & cur & repl & Hi & Hg & Hfind & _ & Hgw & _ & -> & ->).
    apply py_getitem_Ok in Hg, Hgw.
    apply access_miss_installed in Hs as (Htag & Hstate & _).
    apply _index_tag_Ok in Hi as (_ & _ & -> & _).
    exists ways, (update_history core w wd line'), false.
    split; [done|]. split.
    { unfold store at 1. rewrite (store_row _ _ _ ways) by done. simpl.
      unfold store. simpl. rewrite Hg. simpl.
      rewrite list_insert_insert_eq. by rewrite list_insert_insert_eq. }
    rewrite Ht, Hst, Htag, Hstate. split; [by destruct w|].
    by apply (proj1 (list_find_None _ _)).
Qed.

Lemma row_unique_insert ways i new :
  row_unique ways → state new ≠ INVALID →
  (∃ line, ways !! i = Some line ∧ line_matches (tag new) line) ∨
  Forall (λ l, ¬ line_matches (tag new) l) ways →
  row_unique (<[i := new]> ways).
Proof.
  intros Hu Hnew Hcase a b la lb Ha Hb Hva Hvb Htag.
  destruct (decide (a = b)) as [|Hab]; [done|]. exfalso.
  assert (∀ j lj, j ≠ i → ways !! j = Some lj → state lj ≠ INVALID →
                  tag lj = tag new → False) as Hother.
  { intros j lj Hj Hlj Hvj Htj. destruct Hcase as [(line & Hl & [Ht Hv])|Hnone].
    - apply Hj. apply (Hu j i lj line); try done. congruence.
    - apply (Forall_lookup_1 _ _ _ _ Hnone Hlj). done. }
  destruct (decide (a = i)) as [->|Hai], (decide (b = i)) as [->|Hbi]; [done| | |].
  - pose proof (lookup_lt_Some _ _ _ Ha) as Hlt. rewrite length_insert in Hlt.
    rewrite list_lookup_insert_eq in Ha by done.
    injection Ha as <-. rewrite list_lookup_insert_ne in Hb by done.
    by eapply (Hother b lb).
  - pose proof (lookup_lt_Some _ _ _ Hb) as Hlt. rewrite length_insert in Hlt.
    rewrite list_lookup_insert_eq in Hb by done.
    injection Hb as <-. rewrite list_lookup_insert_ne in Ha by done.
    by eapply (Hother a la).
  - rewrite list_lookup_insert_ne in Ha, Hb by done.
    apply Hab. by apply (Hu a b la lb).
Qed.

Lemma access_row_unique c core w addr st lg c' st' lg' :
  Forall row_unique (lines c) →
  access c core w addr st lg = Ok (c', st', lg') →
  Forall row_unique (lines c').
Proof.
  intros Hc H.
  apply access_row in H as (r & ways & new & hit & Hrow & -> & Hnew & Hcase).
  apply Forall_insert; [done|].
  apply row_unique_insert; [by eapply Forall_lookup_1|done|].
  destruct hit; [by left|by right].
Qed.

(** X20: a memory line is resident at most once.  On every cache a run
    can reach, two different ways of a set never hold valid lines with the
    same tag, so a hit is never ambiguous. *)
Theorem resident_once cf c si ways i j li lj :
  reachable cf c →
  lines c !! si = Some ways → ways !! i = Some li → ways !! j = Some lj →
  state li ≠ INVALID → state lj ≠ INVALID → tag li = tag lj → i = j.
Proof.
  intros Hr Hrow. revert i j li lj.
  change (row_unique ways). eapply Forall_lookup_1; [|exact Hrow].
  clear Hrow ways si.
  induction Hr as [|c core w addr st lg c' st' lg' _ IH Ha].
  - unfold Cache_new. simpl. apply Forall_replicate.
    intros i j li lj Hi Hj Hvi. apply lookup_replicate_1 in Hi as [-> _]. done.
  - by eapply access_row_unique.
Qed.

Lemma resident_once_witness :
  lines cache_owned0 !! 0%nat
  = Some [mkLine 0 MODIFIED (Some 0) {[Some 0]} 0 0 0 false; CacheLine_new] ∧
  (0 = 0)%nat.
Proof.
  split; [reflexivity|].
  apply (resident_once (Config_2way false) cache_owned0 0%nat
           [mkLine 0 MODIFIED (Some 0) {[Some 0]} 0 0 0 false; CacheLine_new]
           0%nat 0%nat
           (mkLine 0 MODIFIED (Some 0) {[Some 0]} 0 0 0 false)
           (mkLine 0 MODIFIED (Some 0) {[Some 0]} 0 0 0 false)
           cache_owned0_reachable eq_refl eq_refl eq_refl);
    [discriminate | discriminate | reflexivity].
Defined.
